(** * The Lua bridge of pob2-mcp: a shallow embedding of [lua_bridge.py]

    [LuaBridge] drives one LuaJIT child process over a JSON-lines protocol:
    [start] spawns it and waits for the ready line, [send_command] writes one
    request line and reads one response line from a queue that a background
    thread fills from the child's stdout, [shutdown] tears it down.

    The development has these layers:
    - [Py]: Python values: strings, JSON values, truthiness, [dict.get];
    - [Json]: the [json] library functions the bridge calls ([json.loads]
      and [json.dumps]), modelled from their documented behaviour;
    - [Rt]: exceptions, the world the bridge acts on (processes, queues,
      locks, the children that a spawn finds) and the state-and-exception
      monad of the methods;
    - [Os]: the calls into [pathlib], [queue] and [threading];
    - [Bridge]: the methods of [LuaBridge], statement by statement;
    - [Spec]: the vocabulary of the statements, and concrete worlds;
    - the properties.

    The child process is a black box: what it prints, whether a write to it
    fails, whether it exits in time, is fixed in advance by an arbitrary
    [child] record, and every theorem holds for all of them.  The threads
    are run in sequence: the stdout pump has read what the child printed
    by the time the bridge looks at the queue.

    A Python [str] is represented by its UTF-8 encoding, so the ASCII
    literals of the source are the same literals here. *)

From Stdlib Require Import ZArith Ascii String List Bool Lia SpecFloat.
From stdpp Require Import base option list gmap strings pretty.

Set Default Proof Using "Type".
Set Warnings "-register-all".


(* ===================================================================== *)
(** * Python values *)
(* ===================================================================== *)

Module Py.

(** ** Characters and strings *)

Definition chr (n : N) : ascii := ascii_of_N n.
Definition ord (c : ascii) : N := N_of_ascii c.

Definition LF : ascii := chr 10.
Definition CR : ascii := chr 13.
Definition TAB : ascii := chr 9.
Definition BS : ascii := chr 8.
Definition FF : ascii := chr 12.
Definition SP : ascii := chr 32.
Definition DQUOTE : ascii := chr 34.
Definition BACKSLASH : ascii := chr 92.

Definition NL : string := String LF EmptyString.

Definition is_empty (s : string) : bool :=
  match s with EmptyString => true | String _ _ => false end.

Fixpoint str_mem (c : ascii) (s : string) : bool :=
  match s with
  | EmptyString => false
  | String d s' => Ascii.eqb c d || str_mem c s'
  end.

Fixpoint str_repeat (c : ascii) (n : nat) : string :=
  match n with O => EmptyString | S n' => String c (str_repeat c n') end.

(** [s.rstrip(chars)]: drop the longest suffix made of characters of
    [chars]. *)
Fixpoint rstrip (chars : string) (s : string) : string :=
  match s with
  | EmptyString => EmptyString
  | String c s' =>
      match rstrip chars s' with
      | EmptyString => if str_mem c chars then EmptyString else String c EmptyString
      | t => String c t
      end
  end.

Fixpoint str_forallb (p : ascii -> bool) (s : string) : bool :=
  match s with
  | EmptyString => true
  | String c s' => p c && str_forallb p s'
  end.

Fixpoint is_prefix (p s : string) : bool :=
  match p, s with
  | EmptyString, _ => true
  | String a p', String b s' => Ascii.eqb a b && is_prefix p' s'
  | String _ _, EmptyString => false
  end.

(** [sub in s] *)
Fixpoint contains (sub s : string) : bool :=
  is_prefix sub s ||
  match s with
  | EmptyString => false
  | String _ s' => contains sub s'
  end.

(** ** Floats: IEEE 754 binary64, as [spec_float] with [prec = 53] and
    [emax = 1024] *)

Definition float := spec_float.
Definition prec : Z := 53.
Definition emax : Z := 1024.

Definition float_is_zero (f : float) : bool :=
  match f with S754_zero _ => true | _ => false end.

(** ** JSON values, as [json.loads] returns them and [json.dumps] takes them

    A [dict] keeps its keys in insertion order, and [json.dumps] writes them
    in that order, so an object is an association list. *)

Inductive json : Type :=
  | JNull                                   (* None *)
  | JBool (b : bool)
  | JInt (n : Z)
  | JFloat (f : float)
  | JStr (s : string)
  | JArr (l : list json)
  | JObj (d : list (string * json)).

Definition dict : Type := list (string * json).

(** [bool(v)] *)
Definition truthy (v : json) : bool :=
  match v with
  | JNull => false
  | JBool b => b
  | JInt n => negb (n =? 0)%Z
  | JFloat f => negb (float_is_zero f)
  | JStr s => negb (is_empty s)
  | JArr l => match l with [] => false | _ => true end
  | JObj d => match d with [] => false | _ => true end
  end.

Definition is_dict (v : json) : bool :=
  match v with JObj _ => true | _ => false end.

(** [type(v).__name__] *)
Definition type_name (v : json) : string :=
  match v with
  | JNull => "NoneType"
  | JBool _ => "bool"
  | JInt _ => "int"
  | JFloat _ => "float"
  | JStr _ => "str"
  | JArr _ => "list"
  | JObj _ => "dict"
  end.

(** [d.get(k)] as [option]; [d.get(k, default)] is [dict_get_default]. *)
Fixpoint dict_lookup (k : string) (d : dict) : option json :=
  match d with
  | [] => None
  | (k', v) :: d' => if String.eqb k k' then Some v else dict_lookup k d'
  end.

Definition dict_get (k : string) (d : dict) : json :=
  default JNull (dict_lookup k d).

Definition dict_get_default (k : string) (dflt : json) (d : dict) : json :=
  default dflt (dict_lookup k d).

(** [d[k] = v]: an existing key keeps its position. *)
Fixpoint dict_set (k : string) (v : json) (d : dict) : dict :=
  match d with
  | [] => [(k, v)]
  | (k', v') :: d' =>
      if String.eqb k k' then (k', v) :: d' else (k', v') :: dict_set k v d'
  end.

End Py.

(* ===================================================================== *)
(** * The [json] library *)
(* ===================================================================== *)

Module Json.
Import Py.

(** ** Lexical helpers *)

Definition is_ws (c : ascii) : bool :=
  Ascii.eqb c SP || Ascii.eqb c TAB || Ascii.eqb c LF || Ascii.eqb c CR.

Fixpoint skip_ws (s : string) : string :=
  match s with
  | String c s' => if is_ws c then skip_ws s' else s
  | EmptyString => s
  end.

Definition is_digit (c : ascii) : bool :=
  (48 <=? ord c)%N && (ord c <=? 57)%N.

Definition digit_val (c : ascii) : Z := Z.of_N (ord c) - 48.

Definition hex_val (c : ascii) : option N :=
  let n := ord c in
  if (48 <=? n)%N && (n <=? 57)%N then Some (n - 48)%N
  else if (65 <=? n)%N && (n <=? 70)%N then Some (n - 55)%N
  else if (97 <=? n)%N && (n <=? 102)%N then Some (n - 87)%N
  else None.

Definition hex4 (a b c d : ascii) : option N :=
  match hex_val a, hex_val b, hex_val c, hex_val d with
  | Some x, Some y, Some z, Some w => Some (((x * 16 + y) * 16 + z) * 16 + w)%N
  | _, _, _, _ => None
  end.

(** The longest prefix of decimal digits, and what follows it. *)
Fixpoint span_digits (s : string) : string * string :=
  match s with
  | String c s' =>
      if is_digit c then let '(ds, r) := span_digits s' in (String c ds, r)
      else (EmptyString, s)
  | EmptyString => (EmptyString, EmptyString)
  end.

Fixpoint digits_value (acc : Z) (ds : string) : Z :=
  match ds with
  | EmptyString => acc
  | String c ds' => digits_value (10 * acc + digit_val c) ds'
  end.

(** ** UTF-8 *)

Definition utf8_encode (cp : N) : string :=
  if (cp <? 128)%N then String (chr cp) EmptyString
  else if (cp <? 2048)%N then
    String (chr (192 + cp / 64)) (String (chr (128 + cp mod 64)) EmptyString)
  else if (cp <? 65536)%N then
    String (chr (224 + cp / 4096))
      (String (chr (128 + (cp / 64) mod 64))
         (String (chr (128 + cp mod 64)) EmptyString))
  else
    String (chr (240 + cp / 262144))
      (String (chr (128 + (cp / 4096) mod 64))
         (String (chr (128 + (cp / 64) mod 64))
            (String (chr (128 + cp mod 64)) EmptyString))).

(** ** [float(s)] on a decimal literal: the binary64 nearest to
    [m * 10 ^ e10], ties to even *)

Definition float_of_decimal (neg : bool) (m : Z) (e10 : Z) : float :=
  match m with
  | Zpos p =>
      if (0 <=? e10)%Z then
        binary_round prec emax neg (p * Z.to_pos (10 ^ e10)) 0
      else
        let '(q, e, l) :=
          SFdiv_core_binary prec emax (Zpos p) 0 (10 ^ (- e10)) 0 in
        binary_round_aux prec emax neg q e l
  | _ => S754_zero neg
  end.

(** ** [json.loads] *)

(** What stands between the quotes of a string literal: source characters
    and the code units of [\uXXXX] escapes.  Two escapes that form a
    surrogate pair are one character. *)
Inductive code_unit : Type :=
  | Raw (c : ascii)
  | Esc (u : N).

Definition simple_escape (e : ascii) : option ascii :=
  if Ascii.eqb e DQUOTE then Some DQUOTE
  else if Ascii.eqb e BACKSLASH then Some BACKSLASH
  else if Ascii.eqb e "/" then Some "/"%char
  else if Ascii.eqb e "b" then Some BS
  else if Ascii.eqb e "f" then Some FF
  else if Ascii.eqb e "n" then Some LF
  else if Ascii.eqb e "r" then Some CR
  else if Ascii.eqb e "t" then Some TAB
  else None.

Definition push_unit (u : code_unit) (r : option (list code_unit * string))
  : option (list code_unit * string) :=
  match r with
  | Some (us, rest) => Some (u :: us, rest)
  | None => None
  end.

(** Scans after the opening quote, up to and including the closing one.
    Control characters must be escaped (the decoder is strict). *)
Fixpoint scan_body (s : string) : option (list code_unit * string) :=
  match s with
  | EmptyString => None
  | String c s1 =>
      if Ascii.eqb c DQUOTE then Some ([], s1)
      else if Ascii.eqb c BACKSLASH then
        match s1 with
        | EmptyString => None
        | String e s2 =>
            if Ascii.eqb e "u" then
              match s2 with
              | String h1 (String h2 (String h3 (String h4 s3))) =>
                  match hex4 h1 h2 h3 h4 with
                  | Some u => push_unit (Esc u) (scan_body s3)
                  | None => None
                  end
              | _ => None
              end
            else
              match simple_escape e with
              | Some d => push_unit (Raw d) (scan_body s2)
              | None => None
              end
        end
      else if (ord c <? 32)%N then None
      else push_unit (Raw c) (scan_body s1)
  end.

Definition is_high_surrogate (u : N) : bool := (55296 <=? u)%N && (u <=? 56319)%N.
Definition is_low_surrogate (u : N) : bool := (56320 <=? u)%N && (u <=? 57343)%N.

Fixpoint units_to_string (us : list code_unit) : string :=
  match us with
  | [] => EmptyString
  | Raw c :: r => String c (units_to_string r)
  | Esc hi :: r =>
      match r with
      | Esc lo :: r' =>
          if is_high_surrogate hi && is_low_surrogate lo then
            utf8_encode (65536 + (hi - 55296) * 1024 + (lo - 56320))
              +:+ units_to_string r'
          else utf8_encode hi +:+ units_to_string r
      | _ => utf8_encode hi +:+ units_to_string r
      end
  end.

Definition scan_string (s : string) : option (string * string) :=
  match scan_body s with
  | Some (us, rest) => Some (units_to_string us, rest)
  | None => None
  end.

(** A number: an optional minus sign, an integer part ([0], or a non-zero
    digit and more digits), an optional fraction (a dot and digits) and an
    optional exponent ([e] or [E], a sign, digits).  Without fraction and
    exponent it is an [int], otherwise a [float]. *)
Definition scan_int_part (s : string) : option (string * string) :=
  match s with
  | String c s' =>
      if Ascii.eqb c "0" then Some (String c EmptyString, s')
      else if is_digit c then Some (span_digits s)
      else None
  | EmptyString => None
  end.

Definition scan_frac (s : string) : option (string * string) :=
  match s with
  | String c s' =>
      if Ascii.eqb c "." then
        match span_digits s' with
        | (EmptyString, _) => None
        | (ds, r) => Some (ds, r)
        end
      else None
  | EmptyString => None
  end.

Definition scan_exp (s : string) : option (Z * string) :=
  match s with
  | String c s' =>
      if Ascii.eqb c "e" || Ascii.eqb c "E" then
        let '(neg, s'') :=
          match s' with
          | String sg t =>
              if Ascii.eqb sg "-" then (true, t)
              else if Ascii.eqb sg "+" then (false, t)
              else (false, s')
          | EmptyString => (false, s')
          end in
        match span_digits s'' with
        | (EmptyString, _) => None
        | (ds, r) =>
            let e := digits_value 0 ds in
            Some (if neg then (- e)%Z else e, r)
        end
      else None
  | EmptyString => None
  end.

Definition scan_number (s : string) : option (json * string) :=
  let '(neg, s0) :=
    match s with
    | String c s' => if Ascii.eqb c "-" then (true, s') else (false, s)
    | EmptyString => (false, s)
    end in
  match scan_int_part s0 with
  | None => None
  | Some (ip, s1) =>
      let '(frac, s2) :=
        match scan_frac s1 with
        | Some (ds, r) => (Some ds, r)
        | None => (None, s1)
        end in
      let '(ex, s3) :=
        match scan_exp s2 with
        | Some (e, r) => (Some e, r)
        | None => (None, s2)
        end in
      match frac, ex with
      | None, None =>
          let n := digits_value 0 ip in
          Some (JInt (if neg then (- n)%Z else n), s3)
      | _, _ =>
          let fd := default EmptyString frac in
          let m := digits_value 0 (ip +:+ fd) in
          let e := (default 0 ex - Z.of_nat (String.length fd))%Z in
          Some (JFloat (float_of_decimal neg m e), s3)
      end
  end.

Fixpoint str_drop (n : nat) (s : string) : string :=
  match n, s with
  | S n', String _ s' => str_drop n' s'
  | _, _ => s
  end.

Definition keyword (kw : string) (v : json) (s : string) : option (json * string) :=
  if is_prefix kw s then Some (v, str_drop (String.length kw) s) else None.

(** The scanner: one value at the head of [s].  [fuel] bounds the nesting
    and the number of members; [json_loads] gives enough of it. *)
Fixpoint scan_once (fuel : nat) (s : string) : option (json * string) :=
  match fuel with
  | O => None
  | S fuel' =>
      match s with
      | EmptyString => None
      | String c s1 =>
          if Ascii.eqb c DQUOTE then
            match scan_string s1 with
            | Some (str, r) => Some (JStr str, r)
            | None => None
            end
          else if Ascii.eqb c "{" then
            match skip_ws s1 with
            | String c2 s2 =>
                if Ascii.eqb c2 "}" then Some (JObj [], s2)
                else
                  match scan_members fuel' [] (String c2 s2) with
                  | Some (d, r) => Some (JObj d, r)
                  | None => None
                  end
            | EmptyString => None
            end
          else if Ascii.eqb c "[" then
            match skip_ws s1 with
            | String c2 s2 =>
                if Ascii.eqb c2 "]" then Some (JArr [], s2)
                else
                  match scan_elems fuel' (String c2 s2) with
                  | Some (l, r) => Some (JArr l, r)
                  | None => None
                  end
            | EmptyString => None
            end
          else if Ascii.eqb c "n" then keyword "null" JNull s
          else if Ascii.eqb c "t" then keyword "true" (JBool true) s
          else if Ascii.eqb c "f" then keyword "false" (JBool false) s
          else
            match scan_number s with
            | Some r => Some r
            | None =>
                if Ascii.eqb c "N" then keyword "NaN" (JFloat S754_nan) s
                else if Ascii.eqb c "I" then
                  keyword "Infinity" (JFloat (S754_infinity false)) s
                else if Ascii.eqb c "-" then
                  keyword "-Infinity" (JFloat (S754_infinity true)) s
                else None
            end
      end
  end

(** The elements of an array, from the first one to the closing bracket. *)
with scan_elems (fuel : nat) (s : string) : option (list json * string) :=
  match fuel with
  | O => None
  | S fuel' =>
      match scan_once fuel' s with
      | None => None
      | Some (v, r) =>
          match skip_ws r with
          | String c r1 =>
              if Ascii.eqb c "]" then Some ([v], r1)
              else if Ascii.eqb c "," then
                match scan_elems fuel' (skip_ws r1) with
                | Some (l, r2) => Some (v :: l, r2)
                | None => None
                end
              else None
          | EmptyString => None
          end
      end
  end

(** The members of an object, from the first key to the closing brace;
    a repeated key keeps its first position and takes the last value. *)
with scan_members (fuel : nat) (acc : dict) (s : string) : option (dict * string) :=
  match fuel with
  | O => None
  | S fuel' =>
      match s with
      | String q s1 =>
          if Ascii.eqb q DQUOTE then
            match scan_string s1 with
            | None => None
            | Some (k, r) =>
                match skip_ws r with
                | String c r1 =>
                    if Ascii.eqb c ":" then
                      match scan_once fuel' (skip_ws r1) with
                      | None => None
                      | Some (v, r2) =>
                          let acc' := dict_set k v acc in
                          match skip_ws r2 with
                          | String c3 r3 =>
                              if Ascii.eqb c3 "}" then Some (acc', r3)
                              else if Ascii.eqb c3 "," then
                                scan_members fuel' acc' (skip_ws r3)
                              else None
                          | EmptyString => None
                          end
                      end
                    else None
                | EmptyString => None
                end
            end
          else None
      | EmptyString => None
      end
  end.

(** [json.loads(s)]: [None] stands for [JSONDecodeError]. *)
Definition json_loads (s : string) : option json :=
  match scan_once (2 * String.length s + 2) (skip_ws s) with
  | Some (v, r) =>
      match skip_ws r with
      | EmptyString => Some v
      | String _ _ => None
      end
  | None => None
  end.


(** ** [json.dumps] *)

(** The code points of a string.  A byte that is not part of a well-formed
    sequence stands for itself, as the lone surrogate [U+DC00 + byte]. *)
Definition is_cont (c : ascii) : bool := (128 <=? ord c)%N && (ord c <=? 191)%N.

Fixpoint code_points (s : string) : list N :=
  match s with
  | EmptyString => []
  | String b s1 =>
      let n := ord b in
      let lone := (56320 + n)%N :: code_points s1 in
      if (n <? 128)%N then n :: code_points s1
      else
        match s1 with
        | String c1 s2 =>
            let cp2 := ((n - 192) * 64 + (ord c1 - 128))%N in
            if (194 <=? n)%N && (n <=? 223)%N && is_cont c1 then
              cp2 :: code_points s2
            else
              match s2 with
              | String c2 s3 =>
                  let cp3 :=
                    (((n - 224) * 64 + (ord c1 - 128)) * 64 + (ord c2 - 128))%N in
                  if (224 <=? n)%N && (n <=? 239)%N && is_cont c1 && is_cont c2
                     && (2048 <=? cp3)%N then
                    cp3 :: code_points s3
                  else
                    match s3 with
                    | String c3 s4 =>
                        let cp4 :=
                          ((((n - 240) * 64 + (ord c1 - 128)) * 64
                            + (ord c2 - 128)) * 64 + (ord c3 - 128))%N in
                        if (240 <=? n)%N && (n <=? 244)%N && is_cont c1
                           && is_cont c2 && is_cont c3
                           && (65536 <=? cp4)%N && (cp4 <=? 1114111)%N then
                          cp4 :: code_points s4
                        else lone
                    | EmptyString => lone
                    end
              | EmptyString => lone
              end
        | EmptyString => lone
        end
  end.

Definition hex_digit (n : N) : ascii :=
  if (n <? 10)%N then chr (48 + n) else chr (87 + n).

(** [\uXXXX], four lower-case hexadecimal digits *)
Definition u_escape (u : N) : string :=
  String BACKSLASH (String "u"
    (String (hex_digit ((u / 4096) mod 16))
       (String (hex_digit ((u / 256) mod 16))
          (String (hex_digit ((u / 16) mod 16))
             (String (hex_digit (u mod 16)) EmptyString))))).

Definition escape_code_point (cp : N) : string :=
  if (cp =? 34)%N then String BACKSLASH (String DQUOTE EmptyString)
  else if (cp =? 92)%N then String BACKSLASH (String BACKSLASH EmptyString)
  else if (cp =? 10)%N then String BACKSLASH "n"
  else if (cp =? 13)%N then String BACKSLASH "r"
  else if (cp =? 9)%N then String BACKSLASH "t"
  else if (cp =? 8)%N then String BACKSLASH "b"
  else if (cp =? 12)%N then String BACKSLASH "f"
  else if (32 <=? cp)%N && (cp <=? 126)%N then String (chr cp) EmptyString
  else if (cp <? 65536)%N then u_escape cp
  else
    let v := (cp - 65536)%N in
    u_escape (55296 + v / 1024) +:+ u_escape (56320 + v mod 1024).

Fixpoint str_concat (l : list string) : string :=
  match l with
  | [] => EmptyString
  | x :: r => x +:+ str_concat r
  end.

(** A string literal with [ensure_ascii] (the default). *)
Definition encode_basestring_ascii (s : string) : string :=
  String DQUOTE (str_concat (map escape_code_point (code_points s))
                 +:+ String DQUOTE EmptyString).

(** *** [repr] of a float: the shortest decimal that reads back as the
    same float *)

Definition ndigits (n : Z) : Z := Z.of_nat (String.length (pretty n)).

(** [num / den >= 10 ^ p] *)
Definition ge_pow10 (num den p : Z) : bool :=
  if (0 <=? p)%Z then (den * 10 ^ p <=? num)%Z
  else (den <=? num * 10 ^ (- p))%Z.

(** [p] with [10 ^ p <= num / den < 10 ^ (p + 1)] *)
Definition decimal_exponent (num den : Z) : Z :=
  let p := (ndigits num - ndigits den)%Z in
  if ge_pow10 num den p then p else (p - 1)%Z.

(** The two [k]-digit neighbours [d * 10 ^ x] of [num / den], the nearer
    one first (on a tie, the even one). *)
Definition neighbours (num den p : Z) (k : Z) : list Z * Z :=
  let x := (p - k + 1)%Z in
  let n := if (0 <=? x)%Z then num else (num * 10 ^ (- x))%Z in
  let d := if (0 <=? x)%Z then (den * 10 ^ x)%Z else den in
  let lo := (n / d)%Z in
  let r := (n mod d)%Z in
  (if (r =? 0)%Z then [lo]
   else
     match (2 * r ?= d)%Z with
     | Lt => [lo; lo + 1]
     | Gt => [lo + 1; lo]
     | Eq => if Z.even lo then [lo; lo + 1] else [lo + 1; lo]
     end%Z, x).

Definition reads_back (m : positive) (e : Z) (x : Z) (d : Z) : bool :=
  match float_of_decimal false d x with
  | S754_finite _ m' e' => (Z.pos m' * 2 ^ (e' - Z.min e e') =? Z.pos m * 2 ^ (e - Z.min e e'))%Z
  | _ => false
  end.

Fixpoint shortest_from (fuel : nat) (k : Z) (m : positive) (e : Z)
    (num den p : Z) : Z * Z :=
  let '(cands, x) := neighbours num den p k in
  match fuel with
  | O => (hd 0%Z cands, x)
  | S fuel' =>
      match List.find (reads_back m e x) cands with
      | Some d => (d, x)
      | None => shortest_from fuel' (k + 1)%Z m e num den p
      end
  end.

(** The digits (without trailing zeros) and the position of the decimal
    point: the value is [0.digits * 10 ^ decpt]. *)
Definition shortest_digits (m : positive) (e : Z) : string * Z :=
  let num := if (0 <=? e)%Z then (Z.pos m * 2 ^ e)%Z else Z.pos m in
  let den := if (0 <=? e)%Z then 1%Z else (2 ^ (- e))%Z in
  let p := decimal_exponent num den in
  let '(d, x) := shortest_from 16 1 m e num den p in
  (rstrip "0" (pretty d), (ndigits d + x)%Z).

Fixpoint str_take (n : nat) (s : string) : string :=
  match n, s with
  | S n', String c s' => String c (str_take n' s')
  | _, _ => EmptyString
  end.

Definition exponent_repr (x : Z) : string :=
  (if (x <? 0)%Z then "-" else "+")
  +:+ (if (Z.abs x <? 10)%Z then "0" else "") +:+ pretty (Z.abs x).

Definition format_repr (digits : string) (decpt : Z) : string :=
  let n := Z.of_nat (String.length digits) in
  if (decpt <=? -4)%Z || (16 <? decpt)%Z then
    match digits with
    | String d rest =>
        String d (if is_empty rest then "" else "." +:+ rest)
        +:+ "e" +:+ exponent_repr (decpt - 1)
    | EmptyString => EmptyString
    end
  else if (decpt <=? 0)%Z then
    "0." +:+ str_repeat "0" (Z.to_nat (- decpt)) +:+ digits
  else if (n <=? decpt)%Z then
    digits +:+ str_repeat "0" (Z.to_nat (decpt - n)) +:+ ".0"
  else
    str_take (Z.to_nat decpt) digits +:+ "." +:+ str_drop (Z.to_nat decpt) digits.

Definition float_repr (f : float) : string :=
  match f with
  | S754_nan => "NaN"
  | S754_infinity false => "Infinity"
  | S754_infinity true => "-Infinity"
  | S754_zero false => "0.0"
  | S754_zero true => "-0.0"
  | S754_finite s m e =>
      let '(ds, decpt) := shortest_digits m e in
      (if s then "-" else "") +:+ format_repr ds decpt
  end.

(** *** The encoder *)

Fixpoint join (sep : string) (l : list string) : string :=
  match l with
  | [] => EmptyString
  | [x] => x
  | x :: r => x +:+ sep +:+ join sep r
  end.

(** [json.dumps(v, separators=(item_sep, key_sep))] *)
Fixpoint json_dumps (item_sep key_sep : string) (v : json) : string :=
  match v with
  | JNull => "null"
  | JBool true => "true"
  | JBool false => "false"
  | JInt n => pretty n
  | JFloat f => float_repr f
  | JStr s => encode_basestring_ascii s
  | JArr l => "[" +:+ join item_sep (map (json_dumps item_sep key_sep) l) +:+ "]"
  | JObj d =>
      "{" +:+ join item_sep
                (map (fun kv => encode_basestring_ascii (fst kv) +:+ key_sep
                                +:+ json_dumps item_sep key_sep (snd kv)) d)
      +:+ "}"
  end.

End Json.

(* ===================================================================== *)
(** * Exceptions, the world, and the monad of the methods *)
(* ===================================================================== *)

Module Rt.
Import Py Json.

(** ** Exceptions *)

(** An f-string is kept as its parts: the literal text and the formatted
    fields, each with the conversion the source asks for. *)
Inductive fpart : Type :=
  | Lit (s : string)               (* literal text *)
  | FStr (s : string)              (* {x} for a str or a path *)
  | FRepr (s : string)             (* {x!r} for a str *)
  | FFloat (x : float)             (* {x} for a float *)
  | FValue (v : json).             (* {x} for a decoded JSON value *)

(** The argument of an exception: the str of an f-string or literal, or
    an object taken from a decoded response. *)
Inductive pyobj : Type :=
  | Fmt (parts : list fpart)
  | Obj (v : json).

Inductive exn : Type :=
  | LuaBridgeError (arg : pyobj) (cause : option exn)
  | LuaBridgeTimeout (arg : pyobj)         (* subclass of LuaBridgeError *)
  | AttributeError (msg : string)
  | OSError (msg : string)
  | BrokenPipeError (msg : string)         (* subclass of OSError *)
  | ValueError (msg : string)
  | JSONDecodeError (doc : string)         (* subclass of ValueError *)
  | Empty                                  (* queue.Empty *)
  | TimeoutExpired.                        (* subprocess.TimeoutExpired *)

(** [isinstance(e, C)] for the classes the source names in [except]. *)
Definition is_LuaBridgeError (e : exn) : bool :=
  match e with LuaBridgeError _ _ | LuaBridgeTimeout _ => true | _ => false end.
Definition is_LuaBridgeTimeout (e : exn) : bool :=
  match e with LuaBridgeTimeout _ => true | _ => false end.
Definition is_OSError (e : exn) : bool :=
  match e with OSError _ | BrokenPipeError _ => true | _ => false end.
Definition is_ValueError (e : exn) : bool :=
  match e with ValueError _ | JSONDecodeError _ => true | _ => false end.
Definition is_JSONDecodeError (e : exn) : bool :=
  match e with JSONDecodeError _ => true | _ => false end.
Definition is_Empty (e : exn) : bool :=
  match e with Empty => true | _ => false end.
Definition is_TimeoutExpired (e : exn) : bool :=
  match e with TimeoutExpired => true | _ => false end.
Definition is_Exception (e : exn) : bool := true.

(** [str(e)] for the I/O errors that [str] is applied to. *)
Definition exn_str (e : exn) : string :=
  match e with
  | OSError m | BrokenPipeError m | ValueError m | AttributeError m => m
  | JSONDecodeError d => d
  | _ => EmptyString
  end.

(** ** The child process, as the bridge can observe it *)

(** How iteration over the child's stdout stands after some lines: the
    pipe is still open (the reader blocks), it reached end of file, or
    reading raised. *)
Inductive stream_end : Type :=
  | StreamOpen
  | StreamEof
  | StreamError (e : exn).

(** What the child does in response to a stimulus, as far as it is seen
    before the bridge looks at its queue again. *)
Record reaction : Type := {
  r_lines : list string;   (* the lines it prints on stdout, with terminators *)
  r_end : stream_end;      (* the state of stdout after them *)
  r_exits : bool           (* whether it has exited by then *)
}.

(** A child process is an oracle: arbitrary behaviour, fixed in advance. *)
Record child : Type := {
  c_boot : reaction;                    (* after the spawn *)
  c_write : list string -> option exn;  (* writing to its stdin raises? (argument: all data, newest last) *)
  c_reply : list string -> reaction;    (* after reading its stdin *)
  c_exits_in_time : list string -> bool;(* it exits within the grace period of [wait] *)
  c_kill : option exn;                  (* [kill] raises? *)
  c_dies : bool                         (* once killed, it is gone within the grace period *)
}.

Inductive spawn_result : Type :=
  | Spawned (c : child)
  | SpawnFails (e : exn).

Record process : Type := {
  p_child : child;
  p_args : list string;
  p_cwd : string;
  p_env : gmap string string;
  p_stdin : list string;     (* data written to its stdin, oldest first *)
  p_exited : bool;           (* [poll()] is not [None] *)
  p_pump_done : bool         (* its stdout reader thread has returned *)
}.

(** What the bridge does to the outside, in order. *)
Inductive event : Type :=
  | EvPopen (pid : nat)
  | EvThread (name : string)
  | EvWrite (pid : nat) (data : string)
  | EvGet (q : nat) (timeout : float)
  | EvKill (pid : nat)
  | EvWait (pid : nat) (timeout : Z).

(** ** The world *)

Record world : Type := {
  sys_platform : string;                   (* sys.platform *)
  BRIDGE_STARTUP_TIMEOUT : float;          (* config.py, fixed at import *)
  BRIDGE_COMMAND_TIMEOUT : float;
  install_root : string;                   (* three levels above config.py *)
  environ : gmap string string;            (* os.environ *)
  dirs : gset string;                      (* paths that are directories *)
  files : gset string;                     (* paths that are regular files *)
  spawn : nat -> spawn_result;             (* what the n-th Popen finds *)
  procs : list process;                    (* Popen objects; a handle is an index *)
  queues : list (list (option string));    (* queue.Queue objects *)
  locks : list bool;                       (* threading.Lock objects: held? *)
  log : list event                         (* newest last *)
}.

Definition IS_WINDOWS (w : world) : bool := String.eqb (sys_platform w) "win32".

Definition set_procs (f : list process -> list process) (w : world) : world :=
  {| sys_platform := sys_platform w;
     BRIDGE_STARTUP_TIMEOUT := BRIDGE_STARTUP_TIMEOUT w;
     BRIDGE_COMMAND_TIMEOUT := BRIDGE_COMMAND_TIMEOUT w;
     install_root := install_root w; environ := environ w;
     dirs := dirs w; files := files w; spawn := spawn w;
     procs := f (procs w); queues := queues w; locks := locks w;
     log := log w |}.

Definition set_queues (f : list (list (option string)) -> list (list (option string)))
    (w : world) : world :=
  {| sys_platform := sys_platform w;
     BRIDGE_STARTUP_TIMEOUT := BRIDGE_STARTUP_TIMEOUT w;
     BRIDGE_COMMAND_TIMEOUT := BRIDGE_COMMAND_TIMEOUT w;
     install_root := install_root w; environ := environ w;
     dirs := dirs w; files := files w; spawn := spawn w;
     procs := procs w; queues := f (queues w); locks := locks w;
     log := log w |}.

Definition set_locks (f : list bool -> list bool) (w : world) : world :=
  {| sys_platform := sys_platform w;
     BRIDGE_STARTUP_TIMEOUT := BRIDGE_STARTUP_TIMEOUT w;
     BRIDGE_COMMAND_TIMEOUT := BRIDGE_COMMAND_TIMEOUT w;
     install_root := install_root w; environ := environ w;
     dirs := dirs w; files := files w; spawn := spawn w;
     procs := procs w; queues := queues w; locks := f (locks w);
     log := log w |}.

Definition add_event (ev : event) (w : world) : world :=
  {| sys_platform := sys_platform w;
     BRIDGE_STARTUP_TIMEOUT := BRIDGE_STARTUP_TIMEOUT w;
     BRIDGE_COMMAND_TIMEOUT := BRIDGE_COMMAND_TIMEOUT w;
     install_root := install_root w; environ := environ w;
     dirs := dirs w; files := files w; spawn := spawn w;
     procs := procs w; queues := queues w; locks := locks w;
     log := log w ++ [ev] |}.

Definition upd_process (pid : nat) (f : process -> process) (w : world) : world :=
  set_procs (fun ps => match ps !! pid with
                       | Some p => <[pid := f p]> ps
                       | None => ps
                       end) w.

Definition with_stdin (data : string) (p : process) : process :=
  {| p_child := p_child p; p_args := p_args p; p_cwd := p_cwd p;
     p_env := p_env p; p_stdin := p_stdin p ++ [data];
     p_exited := p_exited p; p_pump_done := p_pump_done p |}.

Definition with_exited (b : bool) (p : process) : process :=
  {| p_child := p_child p; p_args := p_args p; p_cwd := p_cwd p;
     p_env := p_env p; p_stdin := p_stdin p;
     p_exited := p_exited p || b; p_pump_done := p_pump_done p |}.

Definition with_pump_done (b : bool) (p : process) : process :=
  {| p_child := p_child p; p_args := p_args p; p_cwd := p_cwd p;
     p_env := p_env p; p_stdin := p_stdin p;
     p_exited := p_exited p; p_pump_done := p_pump_done p || b |}.

(** ** The bridge object *)

Inductive target : Type := Target_read_stdout | Target_read_stderr.

Record thread : Type := {
  t_target : target;
  t_daemon : bool;
  t_name : string
}.

Record LuaBridge : Type := {
  _pob_path : string;
  _luajit_path : string;
  _lock : nat;
  _process : option nat;
  _stderr_thread : option thread;
  _stdout_thread : option thread;
  _stdout_queue : nat;
  _started : bool
}.

Definition set_process (p : option nat) (b : LuaBridge) : LuaBridge :=
  {| _pob_path := _pob_path b; _luajit_path := _luajit_path b;
     _lock := _lock b; _process := p;
     _stderr_thread := _stderr_thread b; _stdout_thread := _stdout_thread b;
     _stdout_queue := _stdout_queue b; _started := _started b |}.

Definition set_started (s : bool) (b : LuaBridge) : LuaBridge :=
  {| _pob_path := _pob_path b; _luajit_path := _luajit_path b;
     _lock := _lock b; _process := _process b;
     _stderr_thread := _stderr_thread b; _stdout_thread := _stdout_thread b;
     _stdout_queue := _stdout_queue b; _started := s |}.

Definition set_stdout_queue (q : nat) (b : LuaBridge) : LuaBridge :=
  {| _pob_path := _pob_path b; _luajit_path := _luajit_path b;
     _lock := _lock b; _process := _process b;
     _stderr_thread := _stderr_thread b; _stdout_thread := _stdout_thread b;
     _stdout_queue := q; _started := _started b |}.

Definition set_stdout_thread (t : option thread) (b : LuaBridge) : LuaBridge :=
  {| _pob_path := _pob_path b; _luajit_path := _luajit_path b;
     _lock := _lock b; _process := _process b;
     _stderr_thread := _stderr_thread b; _stdout_thread := t;
     _stdout_queue := _stdout_queue b; _started := _started b |}.

Definition set_stderr_thread (t : option thread) (b : LuaBridge) : LuaBridge :=
  {| _pob_path := _pob_path b; _luajit_path := _luajit_path b;
     _lock := _lock b; _process := _process b;
     _stderr_thread := t; _stdout_thread := _stdout_thread b;
     _stdout_queue := _stdout_queue b; _started := _started b |}.

(** ** The monad: state is the bridge object and the world; a call
    returns, raises, or never returns (it waits for a lock that is held) *)

Definition state : Type := LuaBridge * world.

Inductive outcome (A : Type) : Type :=
  | Ret (a : A)
  | Raise (e : exn)
  | Hang.
Arguments Ret {A} a.
Arguments Raise {A} e.
Arguments Hang {A}.

Definition M (A : Type) : Type := state -> outcome A * state.

Definition ret {A} (a : A) : M A := fun st => (Ret a, st).
Definition raise {A} (e : exn) : M A := fun st => (Raise e, st).

Definition bind {A B} (m : M A) (k : A -> M B) : M B :=
  fun st =>
    match m st with
    | (Ret a, st') => k a st'
    | (Raise e, st') => (Raise e, st')
    | (Hang, st') => (Hang, st')
    end.

Notation "'let*' x ':=' m 'in' k" := (bind m (fun x => k))
  (at level 10, x name, m at level 100, k at level 200).
Notation "m '>>' k" := (bind m (fun _ => k))
  (at level 100, k at level 200, right associativity).

(** [try: m  except C as e: h e] where [catches] tells the instances of [C] *)
Definition try_except {A} (m : M A) (catches : exn -> bool) (h : exn -> M A) : M A :=
  fun st =>
    match m st with
    | (Raise e, st') => if catches e then h e st' else (Raise e, st')
    | r => r
    end.

(** [try: m  finally: f] *)
Definition try_finally {A} (m : M A) (f : M unit) : M A :=
  fun st =>
    match m st with
    | (Hang, st') => (Hang, st')
    | (r, st') =>
        match f st' with
        | (Ret _, st'') => (r, st'')
        | (Raise e, st'') => (Raise e, st'')
        | (Hang, st'') => (Hang, st'')
        end
    end.

Fixpoint for_each {A} (l : list A) (body : A -> M unit) : M unit :=
  match l with
  | [] => ret tt
  | x :: r => body x >> for_each r body
  end.

Definition self : M LuaBridge := fun st => (Ret (fst st), st).
Definition the_world : M world := fun st => (Ret (snd st), st).
Definition set_self (f : LuaBridge -> LuaBridge) : M unit :=
  fun st => (Ret tt, (f (fst st), snd st)).
Definition act (f : world -> world) : M unit :=
  fun st => (Ret tt, (fst st, f (snd st))).

End Rt.

(* ===================================================================== *)
(** * The library calls the bridge makes *)
(* ===================================================================== *)

Module Os.
Import Py Json Rt.

(** [a / b] on paths, and [Path.is_dir], [Path.is_file] *)
Definition path_join (w : world) (a b : string) : string :=
  a +:+ (if IS_WINDOWS w then String BACKSLASH EmptyString else "/") +:+ b.

Definition is_dir (w : world) (p : string) : bool := bool_decide (p ∈ dirs w).
Definition is_file (w : world) (p : string) : bool := bool_decide (p ∈ files w).

(** [x or d] for an optional float *)
Definition float_or (x : option float) (d : float) : float :=
  match x with
  | Some t => if float_is_zero t then d else t
  | None => d
  end.

(** [v.get(k)] and [v.get(k, dflt)]: only a dict has the method. *)
Definition no_attribute (v : json) (attr : string) : exn :=
  AttributeError ("'" +:+ type_name v +:+ "' object has no attribute '" +:+ attr +:+ "'").

Definition py_get (v : json) (k : string) : M json :=
  match v with
  | JObj d => ret (dict_get k d)
  | _ => raise (no_attribute v "get")
  end.

Definition py_get_default (v : json) (k : string) (dflt : json) : M json :=
  match v with
  | JObj d => ret (dict_get_default k dflt d)
  | _ => raise (no_attribute v "get")
  end.

Definition loads (s : string) : M json :=
  match json_loads s with
  | Some v => ret v
  | None => raise (JSONDecodeError s)
  end.

(** ** Queues and locks *)

Definition Queue : M nat :=
  let* w := the_world in
  act (set_queues (fun qs => qs ++ [[]])) >> ret (length (queues w)).

(** [q.put(x)], and several [put]s in a row *)
Definition enqueue (q : nat) (xs : list (option string)) (w : world) : world :=
  set_queues (alter (fun items => items ++ xs) q) w.

Definition queue_put (q : nat) (x : option string) : M unit :=
  act (enqueue q [x]).

(** [q.get(timeout=t)]: the oldest item, or [Empty] when none arrives in
    time.  The items of a queue are those its producer has put by then. *)
Definition queue_get (q : nat) (timeout : float) : M (option string) :=
  act (add_event (EvGet q timeout)) >>
  let* w := the_world in
  match queues w !! q with
  | Some (x :: items) => act (set_queues (fun qs => <[q := items]> qs)) >> ret x
  | _ => raise Empty
  end.

(** Waiting for a lock that is held never ends here: nothing else runs
    that could release it. *)
Definition acquire (l : nat) : M unit :=
  fun st =>
    match locks (snd st) !! l with
    | Some true => (Hang, st)
    | _ => (Ret tt, (fst st, set_locks (fun ls => <[l := true]> ls) (snd st)))
    end.

Definition release (l : nat) : M unit :=
  act (set_locks (fun ls => <[l := false]> ls)).

(** [with l: m] *)
Definition with_lock {A} (l : nat) (m : M A) : M A :=
  acquire l >> try_finally m (release l).

End Os.

(* ===================================================================== *)
(** * [lua_bridge.py] *)
(* ===================================================================== *)

Module Bridge.
Import Py Json Rt Os.

(** The calls to [logger] leave no trace in the world and are left out;
    so is [_read_stderr], which does nothing but log the lines it reads. *)

(** ** [_read_stdout], the stdout reader thread

    It is run over the lines the pipe yields and the way iteration ends.
    [self._stdout_queue] is looked up at every [put]. *)

Definition put_stdout (x : option string) : M unit :=
  let* b := self in queue_put (_stdout_queue b) x.

(** The body of the [for] loop. *)
Definition read_stdout_line (line : string) : M unit :=
  let stripped := rstrip (String LF (String CR EmptyString)) line in
  if is_empty stripped then ret tt
  else put_stdout (Some stripped).

Definition end_of_iteration (fin : stream_end) : M unit :=
  match fin with
  | StreamError e => raise e
  | _ => ret tt
  end.

(** The [try] statement.  While the pipe is open the thread is still in
    the loop, and neither [except] nor [finally] has run. *)
Definition read_stdout_try (lines : list string) (fin : stream_end) : M unit :=
  match fin with
  | StreamOpen => for_each lines read_stdout_line
  | _ =>
      try_finally
        (try_except
           (for_each lines read_stdout_line >> end_of_iteration fin)
           (fun e => is_OSError e || is_ValueError e)
           (fun _ => ret tt))
        (put_stdout None)
  end.

Definition _read_stdout (lines : list string) (fin : stream_end) : M unit :=
  let* b := self in
  match _process b with
  | None => ret tt
  | Some _ => read_stdout_try lines fin
  end.

(** ** Threads and the child's reactions *)

(** An exception that escapes a thread ends that thread only. *)
Definition in_thread (m : M unit) : M unit :=
  try_except m is_Exception (fun _ => ret tt).

Definition is_open (fin : stream_end) : bool :=
  match fin with StreamOpen => true | _ => false end.

Definition after_reaction (pid : nat) (r : reaction) : M unit :=
  act (upd_process pid (with_pump_done (negb (is_open (r_end r))))) >>
  act (upd_process pid (with_exited (r_exits r))).

(** [Thread.start()] of the stdout reader: it runs [_read_stdout] on what
    the child prints after its spawn. *)
Definition start_stdout_thread (t : thread) : M unit :=
  act (add_event (EvThread (t_name t))) >>
  let* b := self in
  let* w := the_world in
  match _process b with
  | Some pid =>
      match procs w !! pid with
      | Some p =>
          let r := c_boot (p_child p) in
          in_thread (_read_stdout (r_lines r) (r_end r)) >> after_reaction pid r
      | None => ret tt
      end
  | None => in_thread (_read_stdout [] StreamOpen)
  end.

(** [_read_stderr] only logs what it reads. *)
Definition start_stderr_thread (t : thread) : M unit :=
  act (add_event (EvThread (t_name t))).

(** The reader of process [pid], already in its loop, goes on with what
    the child prints next; then the child may be gone. *)
Definition child_reacts (pid : nat) (r : reaction) : M unit :=
  let* w := the_world in
  match procs w !! pid with
  | Some p =>
      (if p_pump_done p then ret tt
       else in_thread (read_stdout_try (r_lines r) (r_end r))) >>
      after_reaction pid r
  | None => ret tt
  end.

Definition gone : reaction :=
  {| r_lines := []; r_end := StreamEof; r_exits := true |}.

(** ** [subprocess.Popen] and its methods *)

Definition Popen (args : list string) (cwd : string) (env : gmap string string)
  : M nat :=
  let* w := the_world in
  let pid := length (procs w) in
  match spawn w pid with
  | SpawnFails e => raise e
  | Spawned c =>
      act (fun w => add_event (EvPopen pid)
             (set_procs (fun ps => ps ++
                [{| p_child := c; p_args := args; p_cwd := cwd; p_env := env;
                    p_stdin := []; p_exited := false; p_pump_done := false |}]) w))
      >> ret pid
  end.

(** [p.poll() is not None] *)
Definition poll_exited (pid : nat) : M bool :=
  let* w := the_world in
  ret (match procs w !! pid with Some p => p_exited p | None => true end).

(** [p.stdin.write(data)]; the pipe is line buffered, so the child reads
    the data at once, and [flush] has nothing left to do. *)
Definition stdin_write (pid : nat) (data : string) : M unit :=
  act (add_event (EvWrite pid data)) >>
  let* w := the_world in
  match procs w !! pid with
  | Some p =>
      let written := p_stdin p ++ [data] in
      match c_write (p_child p) written with
      | Some e => raise e
      | None =>
          act (upd_process pid (with_stdin data)) >>
          child_reacts pid (c_reply (p_child p) written)
      end
  | None => raise (BrokenPipeError "Broken pipe")
  end.

Definition stdin_flush (pid : nat) : M unit := ret tt.

Definition kill (pid : nat) : M unit :=
  act (add_event (EvKill pid)) >>
  let* w := the_world in
  match procs w !! pid with
  | Some p =>
      if p_exited p then ret tt
      else
        match c_kill (p_child p) with
        | Some e => raise e
        | None => if c_dies (p_child p) then child_reacts pid gone else ret tt
        end
  | None => ret tt
  end.

Definition wait (pid : nat) (timeout : Z) : M unit :=
  act (add_event (EvWait pid timeout)) >>
  let* w := the_world in
  match procs w !! pid with
  | Some p =>
      if p_exited p then ret tt
      else if c_exits_in_time (p_child p) (p_stdin p) then child_reacts pid gone
      else raise TimeoutExpired
  | None => ret tt
  end.

(** [self._process.m(...)]: the attribute is read again at every use. *)
Definition on_process {A} (attr : string) (m : nat -> M A) : M A :=
  let* b := self in
  match _process b with
  | Some pid => m pid
  | None => raise (no_attribute JNull attr)
  end.

(** ** [config.py] *)

Definition get_pob_path (w : world) : string :=
  match environ w !! "POB_PATH" with
  | Some env_path => if is_empty env_path then install_root w else env_path
  | None => install_root w
  end.

Definition get_luajit_path (w : world) : string :=
  default "luajit" (environ w !! "LUAJIT_PATH").

(** ** [LuaBridge] *)

Definition __init__ (pob_path luajit_path : option string) (w : world)
  : LuaBridge * world :=
  let pob :=
    match pob_path with
    | Some p => if is_empty p then get_pob_path w else p
    | None => get_pob_path w
    end in
  let luajit :=
    match luajit_path with
    | Some p => if is_empty p then get_luajit_path w else p
    | None => get_luajit_path w
    end in
  let lock := length (locks w) in
  let w1 := set_locks (fun ls => ls ++ [false]) w in
  let q := length (queues w1) in
  let w2 := set_queues (fun qs => qs ++ [[]]) w1 in
  ({| _pob_path := pob; _luajit_path := luajit; _lock := lock;
      _process := None; _stderr_thread := None; _stdout_thread := None;
      _stdout_queue := q; _started := false |}, w2).

Definition _read_line (timeout : float) : M (option string) :=
  try_except
    (let* b := self in
     let* line := queue_get (_stdout_queue b) timeout in
     ret line)
    is_Empty
    (fun _ => ret None).

Definition _kill : M unit :=
  let* b := self in
  (match _process b with
   | Some _ =>
       try_except
         (on_process "kill" kill >> on_process "wait" (fun pid => wait pid 5))
         is_Exception
         (fun _ => ret tt) >>
       set_self (set_process None)
   | None => ret tt
   end) >>
  set_self (set_started false).

(** Lines 66-74 of [start]: the environment handed to the child. *)
Definition LUA_PATH_value : string :=
  "../runtime/lua/?.lua;../runtime/lua/?/init.lua;;".
Definition LUA_CPATH_value : string := "../runtime/?.dll;;".

Definition child_env (w : world) : gmap string string :=
  let env := environ w in
  let env := <["LUA_PATH" := LUA_PATH_value]> env in
  if IS_WINDOWS w then <["LUA_CPATH" := LUA_CPATH_value]> env else env.

Definition stdout_thread : thread :=
  {| t_target := Target_read_stdout; t_daemon := true;
     t_name := "lua-bridge-stdout" |}.
Definition stderr_thread : thread :=
  {| t_target := Target_read_stderr; t_daemon := true;
     t_name := "lua-bridge-stderr" |}.

(** Lines 105-123 of [start]: the wait for the ready signal. *)
Definition await_ready (timeout : float) : M unit :=
  let* ready_line := _read_line timeout in
  match ready_line with
  | None =>
      _kill >>
      raise (LuaBridgeError
               (Obj (JStr "Bridge subprocess did not produce any output"))
               None)
  | Some ready_line =>
      let* ready_msg :=
        try_except (loads ready_line) is_JSONDecodeError
          (fun e =>
             _kill >>
             raise (LuaBridgeError
                      (Fmt [Lit "Bridge ready message was not valid JSON: ";
                            FRepr ready_line]) (Some e))) in
      let* ready := py_get ready_msg "ready" in
      if negb (truthy ready) then
        _kill >>
        raise (LuaBridgeError
                 (Fmt [Lit "Unexpected ready message: "; FValue ready_msg])
                 None)
      else set_self (set_started true)
  end.

Definition src_dir_of (w : world) (b : LuaBridge) : string :=
  path_join w (_pob_path b) "src".

Definition bridge_script_of (w : world) (b : LuaBridge) : string :=
  path_join w (path_join w (path_join w (_pob_path b) "api") "lua") "bridge.lua".

Definition start (timeout : option float) : M unit :=
  let* b := self in
  if _started b then ret tt
  else
    let* w := the_world in
    let timeout := float_or timeout (BRIDGE_STARTUP_TIMEOUT w) in
    let src_dir := src_dir_of w b in
    let bridge_script := bridge_script_of w b in
    if negb (is_dir w src_dir) then
      raise (LuaBridgeError
               (Fmt [Lit "PoB src directory not found: "; FStr src_dir]) None)
    else if negb (is_file w bridge_script) then
      raise (LuaBridgeError
               (Fmt [Lit "Bridge script not found: "; FStr bridge_script]) None)
    else
      let env := child_env w in
      let* pid := Popen [_luajit_path b; bridge_script] src_dir env in
      set_self (set_process (Some pid)) >>
      let* q := Queue in
      set_self (set_stdout_queue q) >>
      set_self (set_stdout_thread (Some stdout_thread)) >>
      start_stdout_thread stdout_thread >>
      set_self (set_stderr_thread (Some stderr_thread)) >>
      start_stderr_thread stderr_thread >>
      await_ready timeout.

(** The request of lines 153-155. *)
Definition build_request (command : string) (params : option dict) : dict :=
  let request := [("command", JStr command)] in
  match params with
  | Some (kv :: d) => dict_set "params" (JObj (kv :: d)) request
  | _ => request
  end.

Definition _send_command_locked (command : string) (params : option dict)
    (timeout : float) : M json :=
  let* b := self in
  let* not_running :=
    match _process b with
    | None => ret true
    | Some pid => poll_exited pid
    end in
  if not_running then
    raise (LuaBridgeError (Obj (JStr "Bridge subprocess is not running")) None)
  else
    let request := build_request command params in
    let request_json := json_dumps "," ":" (JObj request) in
    try_except
      (on_process "stdin" (fun pid => stdin_write pid (request_json +:+ NL)) >>
       on_process "stdin" stdin_flush)
      is_OSError
      (fun e =>
         raise (LuaBridgeError
                  (Fmt [Lit "Failed to write to bridge: "; FStr (exn_str e)])
                  (Some e))) >>
    let* response_line := _read_line timeout in
    match response_line with
    | None =>
        raise (LuaBridgeTimeout
                 (Fmt [Lit "Command '"; FStr command; Lit "' timed out after ";
                       FFloat timeout; Lit "s"]))
    | Some response_line =>
        let* response :=
          try_except (loads response_line) is_JSONDecodeError
            (fun e =>
               raise (LuaBridgeError
                        (Fmt [Lit "Invalid JSON response: "; FRepr response_line])
                        (Some e))) in
        let* ok := py_get response "ok" in
        if negb (truthy ok) then
          let* err :=
            py_get_default response "error" (JStr "Unknown error from bridge") in
          raise (LuaBridgeError (Obj err) None)
        else py_get_default response "result" (JObj [])
    end.

Definition send_command (command : string) (params : option dict)
    (timeout : option float) : M json :=
  let* b := self in
  (if negb (_started b) then start None else ret tt) >>
  let* w := the_world in
  let timeout := float_or timeout (BRIDGE_COMMAND_TIMEOUT w) in
  let* b := self in
  with_lock (_lock b) (_send_command_locked command params timeout).

Definition five_seconds : float := S754_finite false 5629499534213120 (-50).

Definition shutdown : M unit :=
  let* b := self in
  if negb (_started b) then ret tt
  else
    try_finally
      (try_except
         (with_lock (_lock b)
            (let* b := self in
             let* alive :=
               match _process b with
               | Some pid => let* exited := poll_exited pid in ret (negb exited)
               | None => ret false
               end in
             if alive then
               try_except
                 (_send_command_locked "shutdown" None five_seconds >> ret tt)
                 is_Exception
                 (fun _ => ret tt) >>
               try_except
                 (on_process "wait" (fun pid => wait pid 5))
                 is_TimeoutExpired
                 (fun _ =>
                    on_process "kill" kill >>
                    on_process "wait" (fun pid => wait pid 5))
             else ret tt))
         is_Exception
         (fun _ => _kill))
      (set_self (set_process None) >> set_self (set_started false)).

Definition is_running : M bool :=
  let* b := self in
  if negb (_started b) then ret false
  else
    match _process b with
    | None => ret false
    | Some pid => let* exited := poll_exited pid in ret (negb exited)
    end.

Definition __del__ : M unit := shutdown.

End Bridge.

(* ===================================================================== *)
(** * The statements, in the words of the specification *)
(* ===================================================================== *)

Module Spec.
Import Py Json Rt Os Bridge.

(** ** The stdout pump *)

Definition LFCR : string := String LF (String CR EmptyString).

Fixpoint str_last (s : string) : option ascii :=
  match s with
  | EmptyString => None
  | String c EmptyString => Some c
  | String _ s' => str_last s'
  end.

(** [s] is [line] without its trailing characters of [chars]: what was cut
    off consists of such characters, and [s] does not end in one. *)
Definition stripped_of (chars line s : string) : Prop :=
  (exists suf, line = s +:+ suf /\ str_forallb (fun c => str_mem c chars) suf = true)
  /\ (forall c, str_last s = Some c -> str_mem c chars = false).

Definition is_stripped (line s : string) : Prop := stripped_of LFCR line s.

Definition non_empty (s : string) : bool := negb (is_empty s).

(** What the loop of the pump puts for the lines it reads. *)
Definition pumped (lines : list string) : list (option string) :=
  map Some (List.filter non_empty (map (rstrip LFCR) lines)).

(** What the pump of a process puts while the child reacts: nothing once
    it has returned; otherwise the lines, and the sentinel if the stream
    ends. *)
Definition delivered (pump_done : bool) (r : reaction) : list (option string) :=
  if pump_done then []
  else pumped (r_lines r) ++ (if is_open (r_end r) then [] else [None]).

(** ** A command on a running bridge *)

Definition lock_free (b : LuaBridge) (w : world) : Prop :=
  locks w !! _lock b <> Some true.

(** The bridge is started, its child [p] has not exited, its queue holds
    [items], and writing [data] to the child succeeds. *)
Definition can_send (b : LuaBridge) (w : world) (pid : nat) (p : process)
    (items : list (option string)) (data : string) : Prop :=
  _started b = true /\ lock_free b w
  /\ _process b = Some pid /\ procs w !! pid = Some p /\ p_exited p = false
  /\ queues w !! _stdout_queue b = Some items
  /\ c_write (p_child p) (p_stdin p ++ [data]) = None.

Definition request_line (command : string) (params : option dict) : string :=
  json_dumps "," ":" (JObj (build_request command params)) +:+ NL.

(** The item the command finds on the queue after its request: what was
    already there, then what the pump delivers of the child's reply.
    [None]: no item at all before the timeout. *)
Definition next_item (items : list (option string)) (p : process) (data : string)
  : option (option string) :=
  head (items ++ delivered (p_pump_done p)
                   (c_reply (p_child p) (p_stdin p ++ [data]))).

Definition timed_out (command : string) (timeout : float) : exn :=
  LuaBridgeTimeout
    (Fmt [Lit "Command '"; FStr command; Lit "' timed out after ";
          FFloat timeout; Lit "s"]).

Definition unknown_error : json := JStr "Unknown error from bridge".

(** What lines 166-178 make of the item read. *)
Definition response_outcome (command : string) (timeout : float)
    (item : option (option string)) : outcome json :=
  match item with
  | None | Some None => Raise (timed_out command timeout)
  | Some (Some line) =>
      match json_loads line with
      | None =>
          Raise (LuaBridgeError
                   (Fmt [Lit "Invalid JSON response: "; FRepr line])
                   (Some (JSONDecodeError line)))
      | Some (JObj d) =>
          if truthy (dict_get "ok" d) then
            Ret (dict_get_default "result" (JObj []) d)
          else
            Raise (LuaBridgeError
                     (Obj (dict_get_default "error" unknown_error d)) None)
      | Some v => Raise (no_attribute v "get")
      end
  end.

(** The specification's reading of the error of a failed response:
    [envelope.error or "Unknown error from bridge"]. *)
Definition error_or_unknown (d : dict) : json :=
  let e := dict_get "error" d in
  if truthy e then e else unknown_error.

(** ** Calls that come to an end *)

(** [m] returns or raises from every state: it never waits forever. *)
Definition terminates {A} (m : M A) : Prop :=
  forall st, fst (m st) <> Hang.

(** ** Worlds after a step (used to state how the primitives run) *)

(** The world once the child [p] has reacted with [r]. *)
Definition reacted (b : LuaBridge) (pid : nat) (p : process) (r : reaction)
    (w : world) : world :=
  upd_process pid (with_exited (r_exits r))
    (upd_process pid (with_pump_done (negb (is_open (r_end r))))
       (enqueue (_stdout_queue b) (delivered (p_pump_done p) r) w)).

(** The world once [data] has been written to the child [p]. *)
Definition written (b : LuaBridge) (pid : nat) (p : process) (data : string)
    (w : world) : world :=
  reacted b pid (with_stdin data p) (c_reply (p_child p) (p_stdin p ++ [data]))
    (upd_process pid (with_stdin data) (add_event (EvWrite pid data) w)).

(** ** Starting *)

(** [start] gets as far as spawning the child [c]. *)
Definition can_spawn (b : LuaBridge) (w : world) (c : child) : Prop :=
  _started b = false
  /\ is_dir w (src_dir_of w b) = true
  /\ is_file w (bridge_script_of w b) = true
  /\ spawn w (length (procs w)) = Spawned c.

(** The process that [Popen] creates then. *)
Definition spawned (b : LuaBridge) (w : world) (c : child) : process :=
  {| p_child := c;
     p_args := [_luajit_path b; bridge_script_of w b];
     p_cwd := src_dir_of w b;
     p_env := child_env w;
     p_stdin := []; p_exited := false; p_pump_done := false |}.

(** The bridge object and the world at the moment [start] begins to wait
    for the ready line: the child is spawned, a new queue is installed,
    both threads run, and the stdout pump has read what the child printed
    so far. *)
Definition booted_bridge (b : LuaBridge) (w : world) : LuaBridge :=
  set_stderr_thread (Some stderr_thread)
    (set_stdout_thread (Some stdout_thread)
       (set_stdout_queue (length (queues w))
          (set_process (Some (length (procs w))) b))).

Definition booted_world (b : LuaBridge) (w : world) (c : child) : world :=
  let pid := length (procs w) in
  let q := length (queues w) in
  add_event (EvThread "lua-bridge-stderr")
    (upd_process pid (with_exited (r_exits (c_boot c)))
       (upd_process pid (with_pump_done (negb (is_open (r_end (c_boot c)))))
          (enqueue q (delivered false (c_boot c))
             (add_event (EvThread "lua-bridge-stdout")
                (set_queues (fun qs => qs ++ [[]])
                   (add_event (EvPopen pid)
                      (set_procs (fun ps => ps ++ [spawned b w c]) w))))))).

(** The specification's reading of the two search-path variables: the
    bridge's entries are appended onto the inherited value. *)
Definition is_search_path (w : world) (k : string) : Prop :=
  k = "LUA_PATH" \/ (IS_WINDOWS w = true /\ k = "LUA_CPATH").

Definition appends_search_paths (w : world) (env : gmap string string) : Prop :=
  forall k v, is_search_path w k -> environ w !! k = Some v ->
              exists added, env !! k = Some (v +:+ added).

(** ** The ready handshake *)

(** The world once [_read_line] has looked at queue [q] holding [items]. *)
Definition after_get (q : nat) (t : float) (items : list (option string))
    (w : world) : world :=
  match items with
  | _ :: rest => set_queues (fun qs => <[q := rest]> qs) (add_event (EvGet q t) w)
  | [] => add_event (EvGet q t) w
  end.

(** [w'] comes from [w] by what killing and reaping a child can do: flags
    of processes change, the log grows, and queue [q] gains sentinels and
    nothing else. *)
Definition settles (q : nat) (w w' : world) : Prop :=
  locks w' = locks w
  /\ (exists k, queues w'
                = alter (fun items => items ++ replicate k None) q (queues w))
  /\ (exists evs, log w' = log w ++ evs)
  /\ length (procs w') = length (procs w).

(** What lines 107-120 make of the item read: the bridge is ready, or the
    handshake fails and the child is killed, or an exception escapes
    before any kill. *)
Inductive handshake : Type :=
  | HsReady
  | HsKilled (e : exn)
  | HsEscapes (e : exn).

Definition no_output : exn :=
  LuaBridgeError (Obj (JStr "Bridge subprocess did not produce any output")) None.

Definition handshake_of (item : option (option string)) : handshake :=
  match item with
  | None | Some None => HsKilled no_output
  | Some (Some line) =>
      match json_loads line with
      | None =>
          HsKilled (LuaBridgeError
                      (Fmt [Lit "Bridge ready message was not valid JSON: ";
                            FRepr line])
                      (Some (JSONDecodeError line)))
      | Some (JObj d) =>
          if truthy (dict_get "ready" d) then HsReady
          else HsKilled (LuaBridgeError
                           (Fmt [Lit "Unexpected ready message: "; FValue (JObj d)])
                           None)
      | Some v => HsEscapes (no_attribute v "get")
      end
  end.

(** The specification's reading of "a fresh lock is installed": the lock
    the bridge holds after [start] did not exist before the call. *)
Definition lock_is_fresh (w : world) (b' : LuaBridge) : Prop :=
  locks w !! _lock b' = None.

(** ** The request line *)

(** A character of the printable ASCII range: no control character, in
    particular no line feed and no carriage return, and nothing beyond
    ASCII. *)
Definition printable (c : ascii) : bool :=
  (32 <=? ord c)%N && (ord c <=? 126)%N.

(** A printable character that is neither a space nor a double quote:
    what the text of a number or of [true], [false], [null] is made of. *)
Definition token_char (c : ascii) : bool :=
  printable c && negb (Ascii.eqb c SP) && negb (Ascii.eqb c DQUOTE).

(** A reader of JSON text that only tracks whether it is inside a string
    literal.  It stops with [None] at a whitespace character outside the
    literals. *)
Inductive scan_state : Type :=
  | Outside          (* between tokens *)
  | Inside           (* in a string literal *)
  | Escaped.         (* in a string literal, after a backslash *)

Fixpoint scan (st : scan_state) (s : string) : option scan_state :=
  match s with
  | EmptyString => Some st
  | String c s' =>
      match st with
      | Outside =>
          if is_ws c then None
          else if Ascii.eqb c DQUOTE then scan Inside s'
          else scan Outside s'
      | Inside =>
          if Ascii.eqb c BACKSLASH then scan Escaped s'
          else if Ascii.eqb c DQUOTE then scan Outside s'
          else scan Inside s'
      | Escaped => scan Inside s'
      end
  end.

(** The text has no whitespace between its tokens, and its string
    literals are closed. *)
Definition compact (s : string) : Prop := scan Outside s = Some Outside.

(** Printable text that the reader goes through from between two tokens
    to between two tokens, whatever follows. *)
Definition seamless (s : string) : Prop :=
  str_forallb printable s = true
  /\ forall rest, scan Outside (s +:+ rest) = scan Outside rest.

(** The members [build_request] is to have, in the words of the
    specification: [command] always, [params] unless empty. *)
Definition params_member (params : option dict) : option json :=
  match params with
  | Some (kv :: d) => Some (JObj (kv :: d))
  | _ => None
  end.

(** ** Concrete children and worlds, for the examples *)

(** JSON text is written with single quotes in the examples. *)
Fixpoint dq (s : string) : string :=
  match s with
  | EmptyString => EmptyString
  | String c s' => String (if Ascii.eqb c "'" then DQUOTE else c) (dq s')
  end.

Definition thirty : float := Eval vm_compute in float_of_decimal false 30 0.

Definition prints (lines : list string) : reaction :=
  {| r_lines := lines; r_end := StreamOpen; r_exits := false |}.

(** A child that prints [boot] when spawned and reacts to every request
    with [reply]; it can be written to, exits when asked to wait, and dies
    when killed. *)
Definition scripted (boot : reaction) (reply : reaction) : child :=
  {| c_boot := boot;
     c_write := fun _ => None;
     c_reply := fun _ => reply;
     c_exits_in_time := fun _ => true;
     c_kill := None;
     c_dies := true |}.

Definition ready_line : string := dq "{'ready': true}" +:+ NL.

(** A child that handshakes and then reacts to every request with [reply]. *)
Definition ready_then (reply : reaction) : child :=
  scripted (prints [ready_line]) reply.

(** A Linux host with Path of Building under [/opt/pob], on which every
    spawn creates the child [c]. *)
Definition host (inherited : gmap string string) (c : child) : world :=
  {| sys_platform := "linux";
     BRIDGE_STARTUP_TIMEOUT := thirty;
     BRIDGE_COMMAND_TIMEOUT := thirty;
     install_root := "/opt/pob";
     environ := inherited;
     dirs := {[ "/opt/pob/src" ]};
     files := {[ "/opt/pob/api/lua/bridge.lua" ]};
     spawn := fun _ => Spawned c;
     procs := []; queues := []; locks := []; log := [] |}.

(** [LuaBridge()] on that host, and the same after [start()]. *)
Definition fresh_bridge (c : child) : state := __init__ None None (host ∅ c).
Definition started_bridge (c : child) : state := snd (start None (fresh_bridge c)).

End Spec.

(* ===================================================================== *)
(** * The callers: [mcp_server.py] and [rest_api.py] *)
(* ===================================================================== *)

(** Both servers keep the bridge in a module-level variable.  Their state
    is that variable and the world. *)

Module Mcp.
Import Py Json Rt Os Bridge.

(** [_bridge: LuaBridge | None], and the world *)
Definition state : Type := option LuaBridge * world.

(** [get_bridge()]: the bridge it returns is the object the global holds. *)
Definition get_bridge (st : state) : outcome LuaBridge * state :=
  let '(b, w) :=
    match fst st with
    | None => __init__ None None (snd st)
    | Some b => (b, snd st)
    end in
  match is_running (b, w) with
  | (Ret true, (b1, w1)) => (Ret b1, (Some b1, w1))
  | (Ret false, st1) =>
      match start None st1 with
      | (Ret _, (b2, w2)) => (Ret b2, (Some b2, w2))
      | (Raise e, (b2, w2)) => (Raise e, (Some b2, w2))
      | (Hang, (b2, w2)) => (Hang, (Some b2, w2))
      end
  | (Raise e, (b1, w1)) => (Raise e, (Some b1, w1))
  | (Hang, (b1, w1)) => (Hang, (Some b1, w1))
  end.

(** [call(command, params)] *)
Definition call (command : string) (params : option dict) (st : state)
  : outcome json * state :=
  match get_bridge st with
  | (Ret b, (_, w)) =>
      let '(r, (b', w')) := send_command command params None (b, w) in
      (r, (Some b', w'))
  | (Raise e, st') => (Raise e, st')
  | (Hang, st') => (Hang, st')
  end.

End Mcp.

Module Rest.
Import Py Json Rt Os Bridge.

(** [bridge: LuaBridge | None], and the world *)
Definition state : Type := option LuaBridge * world.

(** The [detail] of an [HTTPException]: a literal, or [str(e)] of a bridge
    error with the given argument. *)
Inductive detail : Type :=
  | Text (s : string)
  | StrOf (arg : pyobj).

(** What a handler ends with: a value, an [HTTPException], or an exception
    of the bridge that nothing converts. *)
Inductive reply (A : Type) : Type :=
  | Ok (a : A)
  | HTTPException (status_code : Z) (d : detail) (cause : option exn)
  | Uncaught (e : exn)
  | Hangs.
Arguments Ok {A} a.
Arguments HTTPException {A} status_code d cause.
Arguments Uncaught {A} e.
Arguments Hangs {A}.

(** [str(e)] for the two bridge exceptions: the str of their argument *)
Definition error_arg (e : exn) : pyobj :=
  match e with
  | LuaBridgeError arg _ | LuaBridgeTimeout arg => arg
  | _ => Obj JNull
  end.

(** [get_bridge()] *)
Definition get_bridge (st : state) : reply LuaBridge * state :=
  match fst st with
  | None => (HTTPException 503 (Text "Lua bridge is not running") None, st)
  | Some b =>
      match is_running (b, snd st) with
      | (Ret true, (b1, w1)) => (Ok b1, (Some b1, w1))
      | (Ret false, (b1, w1)) =>
          (HTTPException 503 (Text "Lua bridge is not running") None, (Some b1, w1))
      | (Raise e, (b1, w1)) => (Uncaught e, (Some b1, w1))
      | (Hang, (b1, w1)) => (Hangs, (Some b1, w1))
      end
  end.

(** [bridge_call(command, params)] *)
Definition bridge_call (command : string) (params : option dict) (st : state)
  : reply json * state :=
  match get_bridge st with
  | (Ok b, (_, w)) =>
      match send_command command params None (b, w) with
      | (Ret v, (b', w')) => (Ok v, (Some b', w'))
      | (Raise e, (b', w')) =>
          (if is_LuaBridgeError e
           then HTTPException 400 (StrOf (error_arg e)) (Some e)
           else Uncaught e, (Some b', w'))
      | (Hang, (b', w')) => (Hangs, (Some b', w'))
      end
  | (HTTPException c d cause, st') => (HTTPException c d cause, st')
  | (Uncaught e, st') => (Uncaught e, st')
  | (Hangs, st') => (Hangs, st')
  end.

(** [lifespan], before the [yield]: the bridge is created and started; if
    [start] raises, the [finally] clause shuts it down and the exception
    goes on. *)
Definition lifespan_startup (st : state) : outcome unit * state :=
  let '(b, w) := __init__ None None (snd st) in
  match start None (b, w) with
  | (Ret _, (b1, w1)) => (Ret tt, (Some b1, w1))
  | (Raise e, st1) =>
      match shutdown st1 with
      | (Ret _, (b2, w2)) => (Raise e, (Some b2, w2))
      | (Raise e2, (b2, w2)) => (Raise e2, (Some b2, w2))
      | (Hang, (b2, w2)) => (Hang, (Some b2, w2))
      end
  | (Hang, (b1, w1)) => (Hang, (Some b1, w1))
  end.

(** [lifespan], after the [yield]: the [finally] clause. *)
Definition lifespan_shutdown (st : state) : outcome unit * state :=
  match fst st with
  | Some b =>
      match shutdown (b, snd st) with
      | (r, (b', w')) => (r, (Some b', w'))
      end
  | None => (Ret tt, st)
  end.

End Rest.

(* ===================================================================== *)
(** * More vocabulary: what a call may change *)
(* ===================================================================== *)

Module Grows.
Import Py Json Rt Os Bridge.

(** The configuration of the bridge object: its paths and its lock. *)
Definition same_config (b b' : LuaBridge) : Prop :=
  _pob_path b' = _pob_path b
  /\ _luajit_path b' = _luajit_path b
  /\ _lock b' = _lock b.

(** The parts of the world that no method writes: the platform, the
    constants of [config.py], the environment, the file system, and what
    a spawn will find. *)
Definition same_host (w w' : world) : Prop :=
  sys_platform w' = sys_platform w
  /\ BRIDGE_STARTUP_TIMEOUT w' = BRIDGE_STARTUP_TIMEOUT w
  /\ BRIDGE_COMMAND_TIMEOUT w' = BRIDGE_COMMAND_TIMEOUT w
  /\ install_root w' = install_root w
  /\ environ w' = environ w
  /\ dirs w' = dirs w
  /\ files w' = files w
  /\ spawn w' = spawn w.

(** A process only ages: it keeps its child, arguments, directory and
    environment; its stdin only gains data; once exited it stays exited. *)
Definition ages (p p' : process) : Prop :=
  p_child p' = p_child p /\ p_args p' = p_args p /\ p_cwd p' = p_cwd p
  /\ p_env p' = p_env p
  /\ (exists more, p_stdin p' = p_stdin p ++ more)
  /\ (p_exited p = true -> p_exited p' = true)
  /\ (p_pump_done p = true -> p_pump_done p' = true).

(** The world only grows: the host and the locks are as before, the log
    gains events, every process is still there and has only aged, and no
    queue has gone. *)
Definition world_grows (w w' : world) : Prop :=
  same_host w w'
  /\ locks w' = locks w
  /\ (exists evs, log w' = log w ++ evs)
  /\ (forall pid p, procs w !! pid = Some p ->
                    exists p', procs w' !! pid = Some p' /\ ages p p')
  /\ length (queues w) <= length (queues w').

(** No process and no queue has been created. *)
Definition no_spawn (w w' : world) : Prop :=
  length (procs w') = length (procs w)
  /\ length (queues w') = length (queues w).

Definition world_ages (w w' : world) : Prop :=
  world_grows w w' /\ no_spawn w w'.

(** Three ways a call may leave the state: grown; grown without a spawn;
    and the latter with the bridge object untouched. *)
Definition grows (st st' : state) : Prop :=
  same_config (fst st) (fst st') /\ world_grows (snd st) (snd st').

Definition calm (st st' : state) : Prop :=
  same_config (fst st) (fst st') /\ world_ages (snd st) (snd st').

Definition hushed (st st' : state) : Prop :=
  fst st' = fst st /\ world_ages (snd st) (snd st').

(** Whatever [m] does, from any state, the states before and after are
    related by [R]. *)
Definition preserves {A} (R : state -> state -> Prop) (m : M A) : Prop :=
  forall st, R st (snd (m st)).

(** The child of process [pid] is out of the way: it has exited, or a kill
    was sent to it. *)
Definition disposed (pid : nat) (w : world) : Prop :=
  (exists p, procs w !! pid = Some p /\ p_exited p = true)
  \/ EvKill pid ∈ log w.

(** The world with lock [l] taken, and with it given back. *)
Definition locked (l : nat) (w : world) : world :=
  set_locks (fun ls => <[l := true]> ls) w.

Definition unlocked (l : nat) (w : world) : world :=
  set_locks (fun ls => <[l := false]> ls) w.

End Grows.

(* ===================================================================== *)
(** * Properties *)
(* ===================================================================== *)

Import Py Json Rt Os Bridge Spec Grows.

(** ** The [json] model on sample texts (the values are CPython's) *)

Example loads_response :
  json_loads (dq "{'ok': false, 'error': 'bad node id'}")
  = Some (JObj [("ok", JBool false); ("error", JStr "bad node id")]).
Proof. vm_compute. reflexivity. Qed.

Example loads_repeated_key :
  json_loads (dq " {'a': 1, 'b': [true, null], 'a': -3} ")
  = Some (JObj [("a", JInt (-3)); ("b", JArr [JBool true; JNull])]).
Proof. vm_compute. reflexivity. Qed.

Example loads_rejects :
  json_loads "not json" = None /\ json_loads "[1,]" = None
  /\ json_loads "01" = None /\ json_loads (dq "{'a':1,}") = None.
Proof. repeat split; vm_compute; reflexivity. Qed.

Example loads_float :
  json_loads "0.1" = Some (JFloat (S754_finite false 7205759403792794 (-56)))
  /\ json_loads "1e-400" = Some (JFloat (S754_zero false))
  /\ json_loads "1e309" = Some (JFloat (S754_infinity false)).
Proof. repeat split; vm_compute; reflexivity. Qed.

Example dumps_compact :
  option_map (json_dumps "," ":")
    (json_loads (dq "[0.1, 1e16, 1e-5, 100.0, -12, 'a\n€', {'k': []}]"))
  = Some (dq "[0.1,1e+16,1e-05,100.0,-12,'a\n\u20ac',{'k':[]}]").
Proof. vm_compute. reflexivity. Qed.

(** ** How the monad runs *)

Section runs.
Context {A : Type}.
Implicit Types (st : state) (b : LuaBridge) (w : world).

Lemma bind_run {B} (m : M A) (k : A -> M B) st :
  bind m k st
  = match m st with
    | (Ret a, st') => k a st'
    | (Raise e, st') => (Raise e, st')
    | (Hang, st') => (Hang, st')
    end.
Proof. done. Qed.

Lemma ret_run (a : A) st : ret a st = (Ret a, st).
Proof. done. Qed.

Lemma raise_run e st : raise (A := A) e st = (Raise e, st).
Proof. done. Qed.

Lemma try_except_run (m : M A) c h st :
  try_except m c h st
  = match m st with
    | (Raise e, st') => if c e then h e st' else (Raise e, st')
    | r => r
    end.
Proof. done. Qed.

Lemma try_finally_run (m : M A) f st :
  try_finally m f st
  = match m st with
    | (Hang, st') => (Hang, st')
    | (r, st') =>
        match f st' with
        | (Ret _, st'') => (r, st'')
        | (Raise e, st'') => (Raise e, st'')
        | (Hang, st'') => (Hang, st'')
        end
    end.
Proof. done. Qed.
End runs.

Lemma self_run b w : self (b, w) = (Ret b, (b, w)).
Proof. done. Qed.

Lemma the_world_run b w : the_world (b, w) = (Ret w, (b, w)).
Proof. done. Qed.

Lemma set_self_run f b w : set_self f (b, w) = (Ret tt, (f b, w)).
Proof. done. Qed.

Lemma act_run f b w : act f (b, w) = (Ret tt, (b, f w)).
Proof. done. Qed.

Lemma release_run b w l :
  release l (b, w) = (Ret tt, (b, set_locks (fun ls => <[l := false]> ls) w)).
Proof. done. Qed.

Ltac mred := cbv beta iota; cbn [negb fst snd].

(** Runs the monadic code at the head of the goal as far as it is
    determined. *)
Ltac mrun :=
  repeat first
    [ rewrite bind_run | rewrite ret_run | rewrite raise_run | rewrite self_run
    | rewrite the_world_run | rewrite set_self_run | rewrite act_run
    | rewrite try_except_run | rewrite try_finally_run | rewrite release_run
    | progress mred ].

(** ** Worlds *)

Section worlds.
Implicit Types (w : world) (q : nat) (xs ys : list (option string)).

Lemma enqueue_nil q w : enqueue q [] w = w.
Proof.
  unfold enqueue. destruct w; unfold set_queues; simpl. f_equal.
  apply list_eq. intros i. rewrite list_lookup_alter.
  destruct (decide (q = i)) as [->|]; [|done].
  destruct (_ !! i); simpl; [|done]. by rewrite app_nil_r.
Qed.

Lemma enqueue_enqueue q xs ys w :
  enqueue q ys (enqueue q xs w) = enqueue q (xs ++ ys) w.
Proof.
  unfold enqueue. destruct w; unfold set_queues; simpl. f_equal.
  apply list_eq. intros i. rewrite !list_lookup_alter.
  destruct (decide (q = i)) as [->|]; [|done].
  rewrite decide_True by done.
  destruct (_ !! i); simpl; [|done]. by rewrite app_assoc.
Qed.

Lemma queues_enqueue q xs w items :
  queues w !! q = Some items ->
  queues (enqueue q xs w) !! q = Some (items ++ xs).
Proof.
  intros Hq. unfold enqueue. destruct w; simpl in *.
  rewrite list_lookup_alter, decide_True by done. by rewrite Hq.
Qed.

Lemma queues_enqueue_ne q q' xs w :
  q <> q' -> queues (enqueue q xs w) !! q' = queues w !! q'.
Proof.
  intros Hq. unfold enqueue. destruct w; simpl in *.
  by rewrite list_lookup_alter, decide_False by done.
Qed.

Lemma length_queues_enqueue q xs w :
  length (queues (enqueue q xs w)) = length (queues w).
Proof. unfold enqueue. destruct w; simpl. by rewrite length_alter. Qed.

Lemma procs_enqueue q xs w : procs (enqueue q xs w) = procs w.
Proof. done. Qed.
Lemma locks_enqueue q xs w : locks (enqueue q xs w) = locks w.
Proof. done. Qed.
Lemma log_enqueue q xs w : log (enqueue q xs w) = log w.
Proof. done. Qed.
Lemma queues_upd_process pid f w : queues (upd_process pid f w) = queues w.
Proof. done. Qed.
Lemma locks_upd_process pid f w : locks (upd_process pid f w) = locks w.
Proof. done. Qed.
Lemma log_upd_process pid f w : log (upd_process pid f w) = log w.
Proof. done. Qed.
Lemma procs_add_event ev w : procs (add_event ev w) = procs w.
Proof. done. Qed.
Lemma queues_add_event ev w : queues (add_event ev w) = queues w.
Proof. done. Qed.
Lemma locks_add_event ev w : locks (add_event ev w) = locks w.
Proof. done. Qed.
Lemma log_add_event ev w : log (add_event ev w) = log w ++ [ev].
Proof. done. Qed.

Lemma procs_upd_process pid f w p :
  procs w !! pid = Some p ->
  procs (upd_process pid f w) !! pid = Some (f p).
Proof.
  intros Hp. unfold upd_process. simpl. rewrite Hp.
  apply list_lookup_insert_eq. by eapply lookup_lt_Some.
Qed.

Lemma procs_upd_process_ne pid pid' f w :
  pid <> pid' -> procs (upd_process pid f w) !! pid' = procs w !! pid'.
Proof.
  intros Hne. unfold upd_process. simpl.
  destruct (procs w !! pid); [|done]. by apply list_lookup_insert_ne.
Qed.

Lemma length_procs_upd_process pid f w :
  length (procs (upd_process pid f w)) = length (procs w).
Proof.
  unfold upd_process. simpl. destruct (procs w !! pid); [|done].
  by rewrite length_insert.
Qed.

(** Taking a free lock and releasing it leaves the world as it was. *)
Lemma release_acquire l w :
  locks w !! l <> Some true ->
  set_locks (fun ls => <[l := false]> ls)
    (set_locks (fun ls => <[l := true]> ls) w) = w.
Proof.
  intros Hl. destruct w; unfold set_locks; simpl in *. f_equal.
  apply list_eq. intros i.
  destruct (decide (l = i)) as [->|Hne].
  - destruct (locks0 !! i) as [held|] eqn:E.
    + rewrite list_lookup_insert_eq.
      * by destruct held.
      * rewrite length_insert. by eapply lookup_lt_Some.
    + apply lookup_ge_None in E.
      rewrite (list_insert_ge (<[i:=true]> locks0)) by (by rewrite length_insert).
      apply lookup_ge_None. by rewrite length_insert.
  - by rewrite !list_lookup_insert_ne.
Qed.
End worlds.

Create Rewrite HintDb world.
#[local] Hint Rewrite procs_enqueue locks_enqueue log_enqueue queues_upd_process
  locks_upd_process log_upd_process procs_add_event queues_add_event
  locks_add_event log_add_event length_procs_upd_process
  length_queues_enqueue : world.

(** ** The stdout pump *)

Lemma rstrip_stripped_of chars line : stripped_of chars line (rstrip chars line).
Proof.
  induction line as [|c line [[suf [Hs Hf]] Hl]]; simpl.
  - split; [by exists EmptyString|]. by intros c.
  - destruct (rstrip chars line) as [|d t] eqn:E.
    + destruct (str_mem c chars) eqn:Hc.
      * split; [|by intros ?]. exists (String c line). split; [done|].
        simpl. rewrite Hc. simpl. simpl in Hs. by rewrite Hs.
      * split.
        -- exists suf. simpl in *. split; [by rewrite Hs|done].
        -- simpl. intros ? [= <-]. done.
    + split.
      * exists suf. split; [|done]. simpl. by rewrite Hs.
      * intros c'. simpl. destruct t; apply Hl.
Qed.

Lemma for_each_read_stdout_line lines b w :
  for_each lines read_stdout_line (b, w)
  = (Ret tt, (b, enqueue (_stdout_queue b) (pumped lines) w)).
Proof.
  revert w. induction lines as [|line lines IH]; intros w.
  - simpl. unfold ret, pumped. simpl. by rewrite enqueue_nil.
  - simpl. unfold bind at 1. unfold read_stdout_line at 1.
    fold LFCR. unfold pumped, non_empty. simpl.
    destruct (is_empty (rstrip LFCR line)) eqn:E; simpl.
    + apply IH.
    + rewrite IH. by rewrite enqueue_enqueue.
Qed.

(** Run in its thread, the [try] statement of the pump always comes to an
    end, having put [delivered]. *)
Lemma read_stdout_try_in_thread r b w :
  in_thread (read_stdout_try (r_lines r) (r_end r)) (b, w)
  = (Ret tt, (b, enqueue (_stdout_queue b) (delivered false r) w)).
Proof.
  unfold in_thread, read_stdout_try, try_except, try_finally, bind, delivered.
  simpl. destruct (r_end r) as [| |e]; simpl.
  - rewrite for_each_read_stdout_line. simpl. by rewrite app_nil_r.
  - rewrite for_each_read_stdout_line. simpl. by rewrite enqueue_enqueue.
  - rewrite for_each_read_stdout_line. simpl.
    destruct (is_OSError e || is_ValueError e); simpl; by rewrite enqueue_enqueue.
Qed.

(** C9. Run over a stream of lines that ends (end of file or a read
    error), the stdout pump strips the trailing line terminators of each
    line, puts exactly the non-empty stripped lines on the queue, in the
    order of arrival and after what the queue held, then puts one sentinel,
    and ends. *)
Theorem read_stdout_enqueues (b : LuaBridge) (w : world) (pid : nat)
    (items : list (option string)) (lines : list string) (fin : stream_end) :
  _process b = Some pid ->
  queues w !! _stdout_queue b = Some items ->
  fin <> StreamOpen ->
  exists (stripped : list string) (r : outcome unit) (w' : world),
    Forall2 is_stripped lines stripped
    /\ _read_stdout lines fin (b, w) = (r, (b, w'))
    /\ w' = enqueue (_stdout_queue b)
              (map Some (List.filter non_empty stripped) ++ [None]) w
    /\ queues w' !! _stdout_queue b
       = Some (items ++ map Some (List.filter non_empty stripped) ++ [None])
    /\ (r = Ret tt \/ exists e, fin = StreamError e /\ r = Raise e).
Proof.
  intros Hp Hq Hfin.
  exists (map (rstrip LFCR) lines).
  assert (Forall2 is_stripped lines (map (rstrip LFCR) lines)) as HF.
  { induction lines; constructor; [apply rstrip_stripped_of|done]. }
  unfold _read_stdout. mrun. rewrite Hp.
  unfold read_stdout_try.
  destruct fin as [| |e]; [done| |].
  - eexists (Ret tt), _. split; [done|].
    split; [|split; [reflexivity|split; [by apply queues_enqueue|by left]]].
    mrun. rewrite for_each_read_stdout_line. mrun.
    unfold end_of_iteration, put_stdout, queue_put. mrun.
    by rewrite enqueue_enqueue.
  - destruct (is_OSError e || is_ValueError e) eqn:Hc.
    + eexists (Ret tt), _. split; [done|].
      split; [|split; [reflexivity|split; [by apply queues_enqueue|by left]]].
      mrun. rewrite for_each_read_stdout_line. mrun.
      unfold end_of_iteration, put_stdout, queue_put. mrun. rewrite Hc. mrun.
      by rewrite enqueue_enqueue.
    + eexists (Raise e), _. split; [done|].
      split; [|split; [reflexivity|split; [by apply queues_enqueue|]]].
      * mrun. rewrite for_each_read_stdout_line. mrun.
        unfold end_of_iteration, put_stdout, queue_put. mrun. rewrite Hc. mrun.
        by rewrite enqueue_enqueue.
      * right. by exists e.
Qed.

Lemma read_stdout_enqueues_witness :
  let st := started_bridge (ready_then gone) in
  let lines := [dq "{'ok': true}" +:+ NL; NL; "partial"] in
  exists (stripped : list string) (r : outcome unit) (w' : world),
    Forall2 is_stripped lines stripped
    /\ _read_stdout lines StreamEof (fst st, snd st) = (r, (fst st, w'))
    /\ w' = enqueue (_stdout_queue (fst st))
              (map Some (List.filter non_empty stripped) ++ [None]) (snd st)
    /\ queues w' !! _stdout_queue (fst st)
       = Some ([] ++ map Some (List.filter non_empty stripped) ++ [None])
    /\ (r = Ret tt \/ exists e, StreamEof = StreamError e /\ r = Raise e).
Proof.
  intros st lines.
  apply (read_stdout_enqueues (fst st) (snd st) 0 [] lines StreamEof).
  - reflexivity.
  - vm_compute. reflexivity.
  - discriminate.
Defined.

(** ** How the primitives run *)

Lemma acquire_free b w l :
  locks w !! l <> Some true ->
  acquire l (b, w) = (Ret tt, (b, set_locks (fun ls => <[l := true]> ls) w)).
Proof.
  intros Hl. unfold acquire. simpl. by destruct (locks w !! l) as [[]|].
Qed.

Lemma poll_exited_run b w pid p :
  procs w !! pid = Some p -> poll_exited pid (b, w) = (Ret (p_exited p), (b, w)).
Proof. intros Hp. unfold poll_exited. mrun. by rewrite Hp. Qed.

Lemma child_reacts_run b w pid p r :
  procs w !! pid = Some p ->
  child_reacts pid r (b, w) = (Ret tt, (b, reacted b pid p r w)).
Proof.
  intros Hp. unfold child_reacts. mrun. rewrite Hp.
  unfold reacted, delivered, after_reaction. destruct (p_pump_done p); mrun.
  - by rewrite enqueue_nil.
  - rewrite read_stdout_try_in_thread. by mrun.
Qed.

Lemma stdin_write_run b w pid p data :
  procs w !! pid = Some p ->
  c_write (p_child p) (p_stdin p ++ [data]) = None ->
  stdin_write pid data (b, w) = (Ret tt, (b, written b pid p data w)).
Proof.
  intros Hp Hw. unfold stdin_write. mrun. autorewrite with world.
  rewrite Hp, Hw. mrun.
  rewrite (child_reacts_run _ _ _ (with_stdin data p)); [done|].
  apply procs_upd_process. by autorewrite with world.
Qed.

Lemma queues_written b w pid p data items :
  queues w !! _stdout_queue b = Some items ->
  queues (written b pid p data w) !! _stdout_queue b
  = Some (items ++ delivered (p_pump_done p)
                     (c_reply (p_child p) (p_stdin p ++ [data]))).
Proof.
  intros Hq. unfold written, reacted. autorewrite with world.
  erewrite queues_enqueue; [done|]. by autorewrite with world.
Qed.

Lemma read_line_run b w t items :
  queues w !! _stdout_queue b = Some items ->
  _read_line t (b, w)
  = match items with
    | x :: rest =>
        (Ret x, (b, set_queues (fun qs => <[_stdout_queue b := rest]> qs)
                      (add_event (EvGet (_stdout_queue b) t) w)))
    | [] => (Ret None, (b, add_event (EvGet (_stdout_queue b) t) w))
    end.
Proof.
  intros Hq. unfold _read_line, queue_get. mrun. autorewrite with world.
  rewrite Hq. destruct items; by mrun.
Qed.

(** [_read_line] gives the sentinel and the timeout the same result. *)
Lemma read_line_conflates b w t items :
  queues w !! _stdout_queue b = Some items ->
  fst (_read_line t (b, w)) = Ret (default None (head items)).
Proof.
  intros Hq. rewrite (read_line_run _ _ _ items) by done. by destruct items.
Qed.

(** ** [send_command] on a running bridge *)

(** The outcome of a command is decided by the item it finds on the queue;
    the bridge object stays as it was, the lock is free again, and the
    command wrote once and read once. *)
Lemma send_command_runs b w pid p items command params timeout :
  can_send b w pid p items (request_line command params) ->
  exists w',
    send_command command params timeout (b, w)
    = (response_outcome command (float_or timeout (BRIDGE_COMMAND_TIMEOUT w))
         (next_item items p (request_line command params)), (b, w'))
    /\ locks w' = locks w
    /\ log w' = log w ++ [EvWrite pid (request_line command params);
                          EvGet (_stdout_queue b)
                            (float_or timeout (BRIDGE_COMMAND_TIMEOUT w))].
Proof.
  intros (Hs & Hl & Hp & Hpr & He & Hq & Hw).
  assert (forall w0 : world,
    locks (set_locks (fun ls => <[_lock b := false]> ls) w0)
      = <[_lock b := false]> (locks w0)) as Hrel by done.
  assert (<[_lock b := false]> (<[_lock b := true]> (locks w)) = locks w) as Hlk.
  { apply (f_equal locks (release_acquire _ w Hl)). }
  unfold send_command. mrun. rewrite Hs. mrun.
  unfold with_lock. mrun. rewrite acquire_free by done. mrun.
  unfold _send_command_locked. mrun. rewrite Hp.
  rewrite (poll_exited_run _ _ _ p) by done. mrun. rewrite He. mrun.
  fold (request_line command params).
  unfold on_process at 1. mrun. rewrite Hp.
  rewrite (stdin_write_run _ _ _ p) by done. mrun.
  unfold on_process at 1. mrun. rewrite Hp. unfold stdin_flush. mrun.
  erewrite read_line_run by (by apply queues_written).
  unfold next_item, response_outcome, timed_out.
  destruct (items ++ delivered _ _) as [|[line|] rest]; cbn [head]; mrun.
  - eexists. split; [done|]. rewrite Hrel. unfold written, reacted.
    autorewrite with world. simpl. rewrite Hlk. split; [done|].
    by rewrite <- app_assoc.
  - unfold loads.
    destruct (json_loads line) as [v|]; mrun.
    + unfold py_get, py_get_default. destruct v as [| | | | | |d]; mrun;
        try (eexists; split; [done|]; rewrite Hrel; unfold written, reacted;
             autorewrite with world; simpl; rewrite Hlk; split; [done|];
             by rewrite <- app_assoc).
      destruct (truthy (dict_get "ok" d)); mrun;
        eexists; (split; [done|]); rewrite Hrel; unfold written, reacted;
          autorewrite with world; simpl; rewrite Hlk; (split; [done|]);
          by rewrite <- app_assoc.
    + cbn [is_JSONDecodeError]. mrun.
      eexists; split; [done|]; rewrite Hrel; unfold written, reacted;
        autorewrite with world; simpl; rewrite Hlk; split; [done|];
        by rewrite <- app_assoc.
  - eexists. split; [done|]. rewrite Hrel. unfold written, reacted.
    autorewrite with world. simpl. rewrite Hlk. split; [done|].
    by rewrite <- app_assoc.
Qed.

(** The sentinel is treated as a timeout: whenever the item found is the
    sentinel, the command raises [LuaBridgeTimeout], with a message that
    says it timed out. *)
Lemma sentinel_raises_timeout b w pid p items command params timeout :
  can_send b w pid p items (request_line command params) ->
  next_item items p (request_line command params) = Some None ->
  fst (send_command command params timeout (b, w))
  = Raise (timed_out command (float_or timeout (BRIDGE_COMMAND_TIMEOUT w))).
Proof.
  intros Hc Hn. destruct (send_command_runs _ _ _ _ _ command params timeout Hc)
    as (w' & -> & _). by rewrite Hn.
Qed.

(** A response that is JSON but not an object makes the command raise
    [AttributeError], which is not a [LuaBridgeError]. *)
Lemma non_object_response_raises_AttributeError
    b w pid p items command params timeout line v :
  can_send b w pid p items (request_line command params) ->
  next_item items p (request_line command params) = Some (Some line) ->
  json_loads line = Some v ->
  is_dict v = false ->
  fst (send_command command params timeout (b, w)) = Raise (no_attribute v "get")
  /\ is_LuaBridgeError (no_attribute v "get") = false.
Proof.
  intros Hc Hn Hv Hd. destruct (send_command_runs _ _ _ _ _ command params timeout Hc)
    as (w' & -> & _). rewrite Hn. cbn [fst response_outcome]. rewrite Hv.
  by destruct v.
Qed.

(** C7. On a started bridge whose child has exited, or whose process
    handle is absent, [send_command] raises [LuaBridgeError] with the
    message "Bridge subprocess is not running" and does nothing else: the
    bridge object and the world, with its processes, queues and log of
    actions, are as before (nothing written, nothing read, nothing
    spawned). *)
Theorem send_command_not_running (b : LuaBridge) (w : world)
    (command : string) (params : option dict) (timeout : option float) :
  _started b = true ->
  lock_free b w ->
  (_process b = None
   \/ exists pid p, _process b = Some pid /\ procs w !! pid = Some p
                    /\ p_exited p = true) ->
  send_command command params timeout (b, w)
  = (Raise (LuaBridgeError (Obj (JStr "Bridge subprocess is not running")) None),
     (b, w)).
Proof.
  intros Hs Hl Hdead.
  unfold send_command. mrun. rewrite Hs. mrun.
  unfold with_lock. mrun. rewrite acquire_free by done. mrun.
  unfold _send_command_locked. mrun.
  destruct Hdead as [Hp|(pid & p & Hp & Hpr & He)]; rewrite Hp; mrun.
  - by rewrite release_acquire.
  - rewrite (poll_exited_run _ _ _ p) by done. mrun. rewrite He. mrun.
    by rewrite release_acquire.
Qed.

(** A bridge whose child crashed on its first command. *)
Lemma send_command_not_running_witness :
  let st := snd (send_command "get_stats" None None (started_bridge (ready_then gone))) in
  _started (fst st) = true
  /\ send_command "get_stats" None None (fst st, snd st)
     = (Raise (LuaBridgeError (Obj (JStr "Bridge subprocess is not running")) None),
        (fst st, snd st)).
Proof.
  intros st. split; [reflexivity|].
  apply (send_command_not_running (fst st) (snd st)).
  - reflexivity.
  - vm_compute. discriminate.
  - right. eexists 0, _. split; [reflexivity|]. split; [vm_compute; reflexivity|].
    reflexivity.
Defined.

(** C1. The child answers the request by closing its stdout: the pump
    puts the sentinel, the command finds it at once, and yet it raises
    [LuaBridgeTimeout] ("timed out after 30.0s"). *)
Theorem send_command_eof_raises_timeout :
  let st := started_bridge (ready_then gone) in
  exists p,
    procs (snd st) !! 0 = Some p
    /\ can_send (fst st) (snd st) 0 p [] (request_line "get_stats" None)
    /\ next_item [] p (request_line "get_stats" None) = Some None
    /\ fst (send_command "get_stats" None None st)
       = Raise (timed_out "get_stats" thirty)
    /\ is_LuaBridgeTimeout (timed_out "get_stats" thirty) = true.
Proof.
  intros st. eexists. split; [vm_compute; reflexivity|].
  split; [|split; [reflexivity|split; [vm_compute; reflexivity|reflexivity]]].
  repeat split; try reflexivity. vm_compute. discriminate.
Qed.




(** C10. There is a response line that is well-formed JSON and not an
    object, the number [42], on which [send_command] raises an
    [AttributeError], which is not a [LuaBridgeError]. *)
Theorem send_command_AttributeError_escapes :
  exists (line : string) (v : json) (st : state) (e : exn),
    json_loads line = Some v
    /\ is_dict v = false
    /\ (exists p, procs (snd st) !! 0 = Some p
                  /\ can_send (fst st) (snd st) 0 p [] (request_line "get_stats" None)
                  /\ next_item [] p (request_line "get_stats" None) = Some (Some line))
    /\ fst (send_command "get_stats" None None st) = Raise e
    /\ e = AttributeError "'int' object has no attribute 'get'"
    /\ is_LuaBridgeError e = false.
Proof.
  exists "42", (JInt 42), (started_bridge (ready_then (prints ["42" +:+ NL]))).
  eexists. split; [vm_compute; reflexivity|]. split; [reflexivity|].
  split.
  { eexists. split; [vm_compute; reflexivity|]. split; [|vm_compute; reflexivity].
    repeat split; try reflexivity. vm_compute. discriminate. }
  split; [vm_compute; reflexivity|]. split; reflexivity.
Qed.

(** ** Calls that come to an end, and [shutdown] *)

Section terminates.
Context {A B : Type}.

Lemma terminates_ret (a : A) : terminates (ret a).
Proof. by intros st. Qed.
Lemma terminates_raise e : terminates (raise (A := A) e).
Proof. by intros st. Qed.
Lemma terminates_bind (m : M A) (k : A -> M B) :
  terminates m -> (forall a, terminates (k a)) -> terminates (bind m k).
Proof.
  intros Hm Hk st. rewrite bind_run. specialize (Hm st).
  destruct (m st) as [[a|e|] st']; [apply Hk|done|done].
Qed.
Lemma terminates_try_except (m : M A) c h :
  terminates m -> (forall e, terminates (h e)) -> terminates (try_except m c h).
Proof.
  intros Hm Hh st. rewrite try_except_run. specialize (Hm st).
  destruct (m st) as [[a|e|] st']; [done| |done].
  destruct (c e); [apply Hh|done].
Qed.
Lemma terminates_try_finally (m : M A) f :
  terminates m -> terminates f -> terminates (try_finally m f).
Proof.
  intros Hm Hf st. rewrite try_finally_run. specialize (Hm st).
  destruct (m st) as [[a|e|] st']; [| |done];
    specialize (Hf st'); by destruct (f st') as [[[]|e'|] st''].
Qed.
End terminates.

Lemma terminates_for_each {A} (l : list A) (body : A -> M unit) :
  (forall x, terminates (body x)) -> terminates (for_each l body).
Proof.
  intros Hb. induction l as [|x l IH]; [by intros st|].
  exact (terminates_bind (body x) (fun _ => for_each l body) (Hb x) (fun _ => IH)).
Qed.

Lemma terminates_self : terminates self.
Proof. by intros st. Qed.
Lemma terminates_the_world : terminates the_world.
Proof. by intros st. Qed.
Lemma terminates_set_self f : terminates (set_self f).
Proof. by intros st. Qed.
Lemma terminates_act f : terminates (act f).
Proof. by intros st. Qed.

(** Takes apart a goal [terminates m] along the structure of [m]. *)
Ltac terminate :=
  repeat first
    [ assumption
    | match goal with H : context [terminates] |- _ => apply H end
    | apply terminates_ret | apply terminates_raise | apply terminates_self
    | apply terminates_the_world | apply terminates_set_self
    | apply terminates_act
    | apply terminates_bind; [|intros ?]
    | apply terminates_try_except; [|intros ?]
    | apply terminates_try_finally
    | apply terminates_for_each; intros ?
    | match goal with
      | |- terminates (match ?x with _ => _ end) => destruct x
      | |- terminates (if ?c then _ else _) => destruct c
      end ].

Lemma terminates_child_reacts pid r : terminates (child_reacts pid r).
Proof.
  unfold child_reacts, in_thread, read_stdout_try, after_reaction,
    read_stdout_line, end_of_iteration, put_stdout, queue_put.
  terminate.
Qed.

Lemma terminates_stdin_write pid data : terminates (stdin_write pid data).
Proof.
  pose proof terminates_child_reacts. unfold stdin_write. terminate.
Qed.

Lemma terminates_kill pid : terminates (kill pid).
Proof. pose proof terminates_child_reacts. unfold kill. terminate. Qed.

Lemma terminates_wait pid t : terminates (wait pid t).
Proof. pose proof terminates_child_reacts. unfold wait. terminate. Qed.

Lemma terminates_read_line t : terminates (_read_line t).
Proof. unfold _read_line, queue_get. terminate. Qed.

Lemma terminates_send_command_locked command params timeout :
  terminates (_send_command_locked command params timeout).
Proof.
  pose proof terminates_stdin_write. pose proof terminates_read_line.
  unfold _send_command_locked, on_process, poll_exited, stdin_flush, loads,
    py_get, py_get_default.
  terminate.
Qed.

Lemma terminates_kill_self : terminates _kill.
Proof.
  pose proof terminates_kill. pose proof terminates_wait.
  unfold _kill, on_process. terminate.
Qed.


(** A [try] that catches every exception and passes returns. *)
Lemma try_pass_run (m : M unit) st :
  terminates m ->
  exists st', try_except m is_Exception (fun _ => ret tt) st = (Ret tt, st').
Proof.
  intros Hm. rewrite try_except_run. specialize (Hm st).
  destruct (m st) as [[[]|e|] st']; [by eexists|by eexists|done].
Qed.

Lemma kill_self_run b w :
  exists b' w', _kill (b, w) = (Ret tt, (b', w'))
                /\ _process b' = None /\ _started b' = false.
Proof.
  unfold _kill. rewrite bind_run, self_run. mred.
  destruct (_process b) as [pid|] eqn:Hp.
  - rewrite !bind_run.
    match goal with |- context [try_except ?m is_Exception ?h (b, w)] =>
      destruct (try_pass_run m (b, w)) as [[b1 w1] E]
    end.
    { pose proof terminates_kill. pose proof terminates_wait.
      unfold on_process. terminate. }
    rewrite E. mrun. by eexists _, _.
  - mrun. by eexists _, _.
Qed.

(** A bridge that was never started: [shutdown] changes nothing. *)
Lemma shutdown_never_started pob_path luajit_path w :
  shutdown (__init__ pob_path luajit_path w)
  = (Ret tt, __init__ pob_path luajit_path w)
  /\ _process (fst (__init__ pob_path luajit_path w)) = None.
Proof. done. Qed.



(** ** [start] *)

Lemma read_stdout_in_thread r b w pid :
  _process b = Some pid ->
  in_thread (_read_stdout (r_lines r) (r_end r)) (b, w)
  = (Ret tt, (b, enqueue (_stdout_queue b) (delivered false r) w)).
Proof.
  intros Hp. pose proof (read_stdout_try_in_thread r b w) as H.
  unfold in_thread, _read_stdout in *. rewrite try_except_run in *.
  rewrite bind_run, self_run. mred. by rewrite Hp.
Qed.

Lemma start_boots b w c timeout :
  can_spawn b w c ->
  start timeout (b, w)
  = await_ready (float_or timeout (BRIDGE_STARTUP_TIMEOUT w))
      (booted_bridge b w, booted_world b w c).
Proof.
  intros (Hs & Hd & Hf & Hc).
  unfold start. rewrite bind_run, self_run. mred. rewrite Hs. mred.
  rewrite bind_run, the_world_run. mred. rewrite Hd, Hf. mred.
  rewrite bind_run. unfold Popen at 1. rewrite bind_run, the_world_run. mred.
  rewrite Hc. rewrite bind_run, act_run. mred. rewrite ret_run. mred.
  rewrite bind_run, set_self_run. mred.
  rewrite bind_run. unfold Queue at 1. rewrite bind_run, the_world_run. mred.
  rewrite bind_run, act_run. mred. rewrite ret_run. mred.
  rewrite bind_run, set_self_run. mred.
  rewrite bind_run, set_self_run. mred.
  rewrite bind_run. unfold start_stdout_thread at 1.
  rewrite bind_run, act_run. mred. rewrite bind_run, self_run. mred.
  rewrite bind_run, the_world_run. mred.
  cbn [_process set_stdout_thread set_stdout_queue set_process].
  fold (spawned b w c).
  assert (forall w0 : world,
    procs (add_event (EvThread (t_name stdout_thread))
             (set_queues (fun qs => qs ++ [[]])
                (add_event (EvPopen (length (procs w)))
                   (set_procs (fun ps => ps ++ [spawned b w c]) w))))
    !! length (procs w) = Some (spawned b w c)) as Hlook.
  { intros _. cbn [procs add_event set_queues set_procs].
    by rewrite list_lookup_middle. }
  rewrite (Hlook w). mred.
  rewrite bind_run. cbn [p_child spawned].
  rewrite (read_stdout_in_thread _ _ _ (length (procs w))) by done. mred.
  unfold after_reaction. mrun. unfold start_stderr_thread. mrun.
  done.
Qed.

Lemma procs_booted_world b w c :
  procs (booted_world b w c) !! length (procs w)
  = Some (with_exited (r_exits (c_boot c))
            (with_pump_done (negb (is_open (r_end (c_boot c)))) (spawned b w c))).
Proof.
  unfold booted_world. cbn zeta. autorewrite with world.
  erewrite procs_upd_process; [done|]. erewrite procs_upd_process; [done|].
  autorewrite with world. cbn [procs add_event set_queues set_procs].
  by rewrite list_lookup_middle.
Qed.

(** C2 (as the code has it). The environment handed to the spawned child
    contains every inherited variable; every variable other than
    [LUA_PATH] (and, on Windows, [LUA_CPATH]) keeps its inherited value;
    [LUA_PATH] (and, on Windows, [LUA_CPATH]) is set to the bridge's fixed
    search path, whatever value was inherited. *)
Theorem child_env_overrides (b : LuaBridge) (w : world) (c : child)
    (timeout : option float) :
  can_spawn b w c ->
  exists p,
    start timeout (b, w)
    = await_ready (float_or timeout (BRIDGE_STARTUP_TIMEOUT w))
        (booted_bridge b w, booted_world b w c)
    /\ procs w !! length (procs w) = None
    /\ procs (booted_world b w c) !! length (procs w) = Some p
    /\ p_env p = child_env w
    /\ (forall k, is_Some (environ w !! k) -> is_Some (p_env p !! k))
    /\ (forall k, ~ is_search_path w k -> p_env p !! k = environ w !! k)
    /\ p_env p !! "LUA_PATH" = Some LUA_PATH_value
    /\ (IS_WINDOWS w = true -> p_env p !! "LUA_CPATH" = Some LUA_CPATH_value).
Proof.
  intros Hc. eexists. split; [by apply start_boots|].
  split; [by apply lookup_ge_None|]. split; [apply procs_booted_world|].
  cbn [p_env with_exited with_pump_done spawned]. split; [done|].
  unfold child_env, is_search_path.
  destruct (IS_WINDOWS w) eqn:Hw; repeat split.
  - intros k Hk.
    destruct (decide (k = "LUA_CPATH")) as [->|]; [by rewrite lookup_insert_eq|].
    rewrite lookup_insert_ne by done.
    destruct (decide (k = "LUA_PATH")) as [->|]; [by rewrite lookup_insert_eq|].
    by rewrite lookup_insert_ne.
  - intros k Hk. rewrite !lookup_insert_ne; [done|..]; intros <-; apply Hk; auto.
  - rewrite lookup_insert_ne by done. by rewrite lookup_insert_eq.
  - intros _. by rewrite lookup_insert_eq.
  - intros k Hk.
    destruct (decide (k = "LUA_PATH")) as [->|]; [by rewrite lookup_insert_eq|].
    by rewrite lookup_insert_ne.
  - intros k Hk. rewrite lookup_insert_ne; [done|]. intros <-. apply Hk; auto.
  - by rewrite lookup_insert_eq.
  - done.
Qed.

Lemma child_env_overrides_witness :
  let st := fresh_bridge (ready_then gone) in
  _started (fst st) = false
  /\ exists p,
       start None (fst st, snd st)
       = await_ready (float_or None (BRIDGE_STARTUP_TIMEOUT (snd st)))
           (booted_bridge (fst st) (snd st),
            booted_world (fst st) (snd st) (ready_then gone))
       /\ procs (snd st) !! length (procs (snd st)) = None
       /\ procs (booted_world (fst st) (snd st) (ready_then gone))
            !! length (procs (snd st)) = Some p
       /\ p_env p = child_env (snd st)
       /\ (forall k, is_Some (environ (snd st) !! k) -> is_Some (p_env p !! k))
       /\ (forall k, ~ is_search_path (snd st) k ->
                     p_env p !! k = environ (snd st) !! k)
       /\ p_env p !! "LUA_PATH" = Some LUA_PATH_value
       /\ (IS_WINDOWS (snd st) = true ->
           p_env p !! "LUA_CPATH" = Some LUA_CPATH_value).
Proof.
  intros st. split; [reflexivity|].
  apply (child_env_overrides (fst st) (snd st) (ready_then gone) None).
  repeat split; vm_compute; reflexivity.
Defined.

(** C2 (as claimed). With [LUA_PATH] inherited, the child's [LUA_PATH] is
    the bridge's fixed value: the inherited value is not part of it. *)
Lemma inherited_LUA_PATH_is_replaced :
  let inherited : gmap string string :=
    {[ "LUA_PATH" := "/usr/share/lua/5.1/?.lua"; "HOME" := "/root" ]} in
  let w := host inherited (ready_then gone) in
  let st := snd (start None (__init__ None None w)) in
  exists p,
    procs (snd st) !! 0 = Some p
    /\ p_env p !! "HOME" = Some "/root"
    /\ p_env p !! "LUA_PATH" = Some LUA_PATH_value
    /\ contains "/usr/share/lua/5.1/?.lua" LUA_PATH_value = false
    /\ ~ appends_search_paths w (p_env p).
Proof.
  intros inherited w st. eexists. split; [vm_compute; reflexivity|].
  split; [vm_compute; reflexivity|]. split; [vm_compute; reflexivity|].
  split; [vm_compute; reflexivity|].
  intros H. destruct (H "LUA_PATH" "/usr/share/lua/5.1/?.lua") as [added Ha].
  - by left.
  - vm_compute. reflexivity.
  - vm_compute in Ha. discriminate Ha.
Qed.

(** ** The ready handshake *)

Lemma settles_refl q w : settles q w w.
Proof.
  repeat split.
  - exists 0. symmetry. apply list_alter_id. intros x. apply app_nil_r.
  - exists []. by rewrite app_nil_r.
Qed.

Lemma settles_trans q w1 w2 w3 : settles q w1 w2 -> settles q w2 w3 -> settles q w1 w3.
Proof.
  intros (Hl1 & [k1 Hq1] & [e1 He1] & Hp1) (Hl2 & [k2 Hq2] & [e2 He2] & Hp2).
  repeat split.
  - congruence.
  - exists (k1 + k2). rewrite Hq2, Hq1, list_alter_alter_eq.
    apply list_alter_ext; [|done]. intros x _. simpl.
    by rewrite replicate_add, app_assoc.
  - exists (e1 ++ e2). by rewrite He2, He1, app_assoc.
  - congruence.
Qed.

Lemma settles_add_event q ev w : settles q w (add_event ev w).
Proof.
  repeat split.
  - exists 0. symmetry. apply list_alter_id. intros x. apply app_nil_r.
  - by exists [ev].
Qed.

Lemma settles_reacted_gone b pid p w :
  settles (_stdout_queue b) w (reacted b pid p gone w).
Proof.
  unfold reacted. repeat split.
  - exists (if p_pump_done p then 0 else 1).
    autorewrite with world. unfold enqueue, delivered. simpl.
    by destruct (p_pump_done p).
  - exists []. autorewrite with world. by rewrite app_nil_r.
  - by autorewrite with world.
Qed.

Lemma log_settles q w w' ev : settles q w w' -> ev ∈ log w -> ev ∈ log w'.
Proof. intros (_ & _ & [evs ->] & _) H. apply elem_of_app. by left. Qed.

Lemma kill_run b w pid :
  exists r w', kill pid (b, w) = (r, (b, w')) /\ r <> Hang
               /\ settles (_stdout_queue b) w w' /\ EvKill pid ∈ log w'.
Proof.
  assert (EvKill pid ∈ log (add_event (EvKill pid) w)) as Hin.
  { autorewrite with world. apply elem_of_app. right. by apply list_elem_of_singleton. }
  unfold kill. mrun. autorewrite with world.
  destruct (procs w !! pid) as [p|] eqn:Hp; mrun.
  - destruct (p_exited p); mrun.
    { eexists _, _. split; [done|]. split; [done|].
      split; [apply settles_add_event|done]. }
    destruct (c_kill (p_child p)) as [e|]; mrun.
    { eexists _, _. split; [done|]. split; [done|].
      split; [apply settles_add_event|done]. }
    destruct (c_dies (p_child p)); mrun.
    + rewrite (child_reacts_run _ _ _ p) by (by autorewrite with world).
      eexists _, _. split; [done|]. split; [done|]. split.
      * eapply settles_trans; [apply settles_add_event|apply settles_reacted_gone].
      * eapply log_settles; [apply settles_reacted_gone|done].
    + eexists _, _. split; [done|]. split; [done|].
      split; [apply settles_add_event|done].
  - eexists _, _. split; [done|]. split; [done|].
    split; [apply settles_add_event|done].
Qed.

Lemma wait_run b w pid t :
  exists r w', wait pid t (b, w) = (r, (b, w')) /\ r <> Hang
               /\ settles (_stdout_queue b) w w'.
Proof.
  unfold wait. mrun. autorewrite with world.
  destruct (procs w !! pid) as [p|] eqn:Hp; mrun.
  - destruct (p_exited p); mrun.
    { eexists _, _. split; [done|]. split; [done|]. apply settles_add_event. }
    destruct (c_exits_in_time (p_child p) (p_stdin p)); mrun.
    + rewrite (child_reacts_run _ _ _ p) by (by autorewrite with world).
      eexists _, _. split; [done|]. split; [done|].
      eapply settles_trans; [apply settles_add_event|apply settles_reacted_gone].
    + eexists _, _. split; [done|]. split; [done|]. apply settles_add_event.
  - eexists _, _. split; [done|]. split; [done|]. apply settles_add_event.
Qed.

(** [_kill] on a bridge that has a process: the kill is attempted, the
    handle is cleared and the started flag unset; nothing is raised. *)
Lemma kill_self_kills b w pid :
  _process b = Some pid ->
  exists w', _kill (b, w) = (Ret tt, (set_started false (set_process None b), w'))
             /\ settles (_stdout_queue b) w w' /\ EvKill pid ∈ log w'.
Proof.
  intros Hp. unfold _kill. rewrite bind_run, self_run. mred. rewrite Hp.
  rewrite !bind_run, try_except_run, bind_run.
  unfold on_process at 1. rewrite bind_run, self_run. mred. rewrite Hp.
  destruct (kill_run b w pid) as (r & w1 & -> & Hr & Hs1 & Hin).
  destruct r as [[]|e|]; [| |done]; mred.
  - unfold on_process. rewrite bind_run, self_run. mred. rewrite Hp.
    destruct (wait_run b w1 pid 5) as (r2 & w2 & -> & Hr2 & Hs2).
    destruct r2 as [[]|e|]; [| |done]; mrun; cbn [is_Exception]; mrun;
      eexists; (split; [done|]); (split; [by eapply settles_trans|]);
      by eapply log_settles.
  - cbn [is_Exception]. mrun. by eexists.
Qed.

(** The handshake is decided by the item found on the queue. *)
Lemma await_ready_runs b w t pid items :
  _process b = Some pid ->
  queues w !! _stdout_queue b = Some items ->
  exists r b' w',
    await_ready t (b, w) = (r, (b', w'))
    /\ match handshake_of (head items) with
       | HsReady =>
           r = Ret tt /\ b' = set_started true b
           /\ w' = after_get (_stdout_queue b) t items w
       | HsKilled e =>
           r = Raise e /\ b' = set_started false (set_process None b)
           /\ settles (_stdout_queue b) (after_get (_stdout_queue b) t items w) w'
           /\ EvKill pid ∈ log w'
       | HsEscapes e =>
           r = Raise e /\ b' = b /\ w' = after_get (_stdout_queue b) t items w
       end.
Proof.
  intros Hp Hq. unfold await_ready. rewrite bind_run.
  rewrite (read_line_run _ _ _ items) by done.
  assert (forall A w0 e,
    exists w', (_kill >> raise (A := A) e) (b, w0)
               = (Raise e, (set_started false (set_process None b), w'))
               /\ settles (_stdout_queue b) w0 w' /\ EvKill pid ∈ log w') as Hkill.
  { intros A w0 e. rewrite bind_run.
    destruct (kill_self_kills b w0 pid Hp) as (w' & -> & Hs & Hin).
    mrun. by exists w'. }
  unfold handshake_of, after_get, no_output.
  destruct items as [|[line|] rest]; cbn [head]; mred.
  - destruct (Hkill unit (add_event (EvGet (_stdout_queue b) t) w)
                (LuaBridgeError (Obj (JStr "Bridge subprocess did not produce any output")) None))
      as (w' & -> & Hs & Hin).
    by eexists _, _, _.
  - rewrite bind_run, try_except_run. unfold loads.
    destruct (json_loads line) as [v|]; mred.
    + rewrite ret_run. mred. rewrite bind_run. unfold py_get.
      destruct v as [| | | | | |d]; mrun; try by eexists _, _, _.
      destruct (truthy (dict_get "ready" d)); mred.
      * rewrite set_self_run. by eexists _, _, _.
      * match goal with |- context [(_kill >> @raise ?A ?e) (b, ?w0)] =>
          destruct (Hkill A w0 e) as (w' & -> & Hs & Hin)
        end.
        by eexists _, _, _.
    + rewrite raise_run. mred. cbn [is_JSONDecodeError]. mred.
      match goal with |- context [(_kill >> @raise ?A ?e) (b, ?w0)] =>
        destruct (Hkill A w0 e) as (w' & -> & Hs & Hin)
      end.
      by eexists _, _, _.
  - match goal with |- context [(_kill >> @raise ?A ?e) (b, ?w0)] =>
      destruct (Hkill A w0 e) as (w' & -> & Hs & Hin)
    end.
    by eexists _, _, _.
Qed.

Lemma queues_booted_world b w c :
  queues (booted_world b w c) !! length (queues w)
  = Some (delivered false (c_boot c)).
Proof.
  unfold booted_world. cbn zeta. autorewrite with world.
  rewrite (queues_enqueue _ _ _ []); [done|]. autorewrite with world.
  cbn [queues set_queues add_event set_procs]. by rewrite list_lookup_middle.
Qed.

Lemma queues_booted_world_old b w c q :
  q < length (queues w) -> queues (booted_world b w c) !! q = queues w !! q.
Proof.
  intros Hq. unfold booted_world. cbn zeta. autorewrite with world.
  rewrite queues_enqueue_ne by lia. autorewrite with world.
  cbn [queues set_queues add_event set_procs]. by rewrite lookup_app_l.
Qed.

Lemma locks_booted_world b w c : locks (booted_world b w c) = locks w.
Proof. done. Qed.

Lemma log_booted_world b w c :
  log (booted_world b w c)
  = log w ++ [EvPopen (length (procs w)); EvThread "lua-bridge-stdout";
              EvThread "lua-bridge-stderr"].
Proof.
  unfold booted_world. cbn zeta. autorewrite with world.
  cbn [log set_queues add_event set_procs]. by rewrite <- !app_assoc.
Qed.

Lemma queues_after_get q t items w :
  queues w !! q = Some items ->
  queues (after_get q t items w) !! q = Some (tail items).
Proof.
  intros Hq. destruct items as [|x rest]; simpl; [done|].
  apply list_lookup_insert_eq. by eapply lookup_lt_Some.
Qed.

Lemma queues_after_get_ne q q' t items w :
  q <> q' -> queues (after_get q t items w) !! q' = queues w !! q'.
Proof.
  intros Hq. destruct items as [|x rest]; simpl; [done|].
  by apply list_lookup_insert_ne.
Qed.

Lemma locks_after_get q t items w : locks (after_get q t items w) = locks w.
Proof. by destruct items. Qed.

Lemma log_after_get q t items w :
  log (after_get q t items w) = log w ++ [EvGet q t].
Proof. by destruct items. Qed.

Lemma queues_settles q w w' items :
  settles q w w' -> queues w !! q = Some items ->
  exists k, queues w' !! q = Some (items ++ replicate k None).
Proof.
  intros (_ & [k ->] & _) Hq. exists k.
  by rewrite list_lookup_alter, decide_True, Hq.
Qed.

Lemma queues_settles_ne q q' w w' :
  settles q w w' -> q <> q' -> queues w' !! q' = queues w !! q'.
Proof.
  intros (_ & [k ->] & _) Hq. by rewrite list_lookup_alter, decide_False.
Qed.

(** [start], once it spawns, is decided by the first item that the pump
    delivers of what the child prints. *)
Lemma start_runs b w c timeout :
  can_spawn b w c ->
  let t := float_or timeout (BRIDGE_STARTUP_TIMEOUT w) in
  let pid := length (procs w) in
  let q := length (queues w) in
  let items := delivered false (c_boot c) in
  let got := after_get q t items (booted_world b w c) in
  exists r b' w',
    start timeout (b, w) = (r, (b', w'))
    /\ match handshake_of (head items) with
       | HsReady =>
           r = Ret tt /\ b' = set_started true (booted_bridge b w) /\ w' = got
       | HsKilled e =>
           r = Raise e
           /\ b' = set_started false (set_process None (booted_bridge b w))
           /\ settles q got w' /\ EvKill pid ∈ log w'
       | HsEscapes e =>
           r = Raise e /\ b' = booted_bridge b w /\ w' = got
       end.
Proof.
  intros Hc t pid q items got. rewrite (start_boots _ _ c) by done.
  apply (await_ready_runs (booted_bridge b w) (booted_world b w c) t pid items).
  - done.
  - apply queues_booted_world.
Qed.

(** Each of the three failures that [start] reports itself kills the child
    and leaves the bridge idle. *)
Lemma start_failure_kills b w c timeout e :
  can_spawn b w c ->
  handshake_of (head (delivered false (c_boot c))) = HsKilled e ->
  exists b' w',
    start timeout (b, w) = (Raise e, (b', w'))
    /\ EvKill (length (procs w)) ∈ log w'
    /\ _process b' = None /\ _started b' = false.
Proof.
  intros Hc He. destruct (start_runs b w c timeout Hc) as (r & b' & w' & Hrun & H).
  rewrite He in H. destruct H as (-> & -> & _ & Hin). by eexists _, _.
Qed.

(** An exception that escapes the handshake leaves the child alone: the
    handle stays, and nothing is done after the read. *)
Lemma start_escape_leaves_child b w c timeout e :
  can_spawn b w c ->
  handshake_of (head (delivered false (c_boot c))) = HsEscapes e ->
  exists b' w',
    start timeout (b, w) = (Raise e, (b', w'))
    /\ _process b' = Some (length (procs w)) /\ _started b' = false
    /\ log w' = log w ++ [EvPopen (length (procs w)); EvThread "lua-bridge-stdout";
                          EvThread "lua-bridge-stderr";
                          EvGet (length (queues w))
                            (float_or timeout (BRIDGE_STARTUP_TIMEOUT w))].
Proof.
  intros Hc He. destruct (start_runs b w c timeout Hc) as (r & b' & w' & Hrun & H).
  rewrite He in H. destruct H as (-> & -> & ->). eexists _, _. split; [done|].
  split; [done|]. split; [apply Hc|].
  by rewrite log_after_get, log_booted_world, <- app_assoc.
Qed.




(** C5. The child prints [42] as its first line: it is JSON without a
    truthy ["ready"], [start] raises ([AttributeError]), and the child is
    not killed: its handle stays in the bridge, it has not exited, and the
    log has no kill.  The started flag is unset. *)
Theorem start_non_object_ready_line_leaves_child :
  let st := fresh_bridge (scripted (prints ["42" +:+ NL]) gone) in
  let r := start None st in
  json_loads "42" = Some (JInt 42)
  /\ fst r = Raise (AttributeError "'int' object has no attribute 'get'")
  /\ _process (fst (snd r)) = Some 0
  /\ (exists p, procs (snd (snd r)) !! 0 = Some p /\ p_exited p = false)
  /\ log (snd (snd r))
     = [EvPopen 0; EvThread "lua-bridge-stdout"; EvThread "lua-bridge-stderr";
        EvGet 1 thirty]
  /\ _started (fst (snd r)) = false.
Proof.
  intros st r. split; [vm_compute; reflexivity|].
  split; [vm_compute; reflexivity|]. split; [vm_compute; reflexivity|].
  split; [eexists; split; vm_compute; reflexivity|].
  split; vm_compute; reflexivity.
Qed.

(** ** The request line *)

(** ** Strings *)

Lemma str_forallb_app p s1 s2 :
  str_forallb p (s1 +:+ s2) = str_forallb p s1 && str_forallb p s2.
Proof. induction s1 as [|c s1 IH]; simpl; [done|]. by rewrite IH, andb_assoc. Qed.

Lemma str_forallb_impl (p q : ascii -> bool) s :
  (forall c, p c = true -> q c = true) ->
  str_forallb p s = true -> str_forallb q s = true.
Proof.
  intros Hpq. induction s as [|c s IH]; simpl; [done|].
  intros [Hc Hs]%andb_true_iff. rewrite (Hpq c Hc). simpl. by apply IH.
Qed.

Lemma str_forallb_rstrip p chars s :
  str_forallb p s = true -> str_forallb p (rstrip chars s) = true.
Proof.
  induction s as [|c s IH]; simpl; [done|].
  intros [Hc Hs]%andb_true_iff. specialize (IH Hs).
  destruct (rstrip chars s) as [|d t].
  - destruct (str_mem c chars); simpl; [done|]. by rewrite Hc.
  - simpl in *. by rewrite Hc, IH.
Qed.

Lemma str_forallb_take p n s :
  str_forallb p s = true -> str_forallb p (str_take n s) = true.
Proof.
  revert s. induction n as [|n IH]; intros [|c s]; simpl; try done.
  intros [Hc Hs]%andb_true_iff. by rewrite Hc, IH.
Qed.

Lemma str_forallb_drop p n s :
  str_forallb p s = true -> str_forallb p (str_drop n s) = true.
Proof.
  revert s. induction n as [|n IH]; intros [|c s]; simpl; try done.
  intros [Hc Hs]%andb_true_iff. by apply IH.
Qed.

Lemma str_forallb_repeat p c n :
  p c = true -> str_forallb p (str_repeat c n) = true.
Proof. intros Hc. induction n as [|n IH]; simpl; [done|]. by rewrite Hc, IH. Qed.

Lemma str_forallb_mem p c s :
  str_forallb p s = true -> p c = false -> str_mem c s = false.
Proof.
  intros Hs Hc. induction s as [|d s IH]; simpl in *; [done|].
  apply andb_true_iff in Hs as [Hd Hs]. rewrite (IH Hs), orb_false_r.
  destruct (Ascii.eqb_spec c d) as [->|]; [congruence|done].
Qed.

(** ** Decimal digits *)

Lemma token_char_digit x : token_char (pretty_N_char x) = true.
Proof. unfold pretty_N_char. by repeat case_match. Qed.

Lemma token_pretty_N_go x s :
  str_forallb token_char s = true ->
  str_forallb token_char (pretty_N_go x s) = true.
Proof.
  revert s. induction (N.lt_wf_0 x) as [x _ IH]; intros s Hs.
  destruct (decide (x = 0)%N) as [->|].
  - by rewrite pretty_N_go_0.
  - rewrite pretty_N_go_step by lia. apply IH.
    + apply N.div_lt; lia.
    + simpl. by rewrite token_char_digit.
Qed.

Lemma token_pretty_N (x : N) : str_forallb token_char (pretty x) = true.
Proof.
  unfold pretty, pretty_N. case_decide; [done|]. by apply token_pretty_N_go.
Qed.

Lemma token_pretty_Z (x : Z) : str_forallb token_char (pretty x) = true.
Proof.
  destruct x as [|p|p]; unfold pretty, pretty_Z; [done|..].
  - apply (token_pretty_N (Npos p)).
  - simpl. apply (token_pretty_N (Npos p)).
Qed.

(** ** The repr of a float *)

Lemma token_exponent_repr x : str_forallb token_char (exponent_repr x) = true.
Proof.
  unfold exponent_repr. rewrite !str_forallb_app, token_pretty_Z.
  by destruct (x <? 0)%Z, (Z.abs x <? 10)%Z.
Qed.

Lemma token_format_repr ds decpt :
  str_forallb token_char ds = true ->
  str_forallb token_char (format_repr ds decpt) = true.
Proof.
  intros Hds. unfold format_repr.
  destruct ((decpt <=? -4)%Z || (16 <? decpt)%Z).
  - destruct ds as [|d rest]; [done|]. simpl in Hds.
    apply andb_true_iff in Hds as [Hd Hrest].
    rewrite !str_forallb_app, token_exponent_repr. cbn [str_forallb].
    rewrite Hd. destruct (is_empty rest); [done|].
    rewrite str_forallb_app, Hrest. done.
  - destruct (decpt <=? 0)%Z.
    + rewrite !str_forallb_app, Hds, str_forallb_repeat by done. done.
    + destruct (_ <=? decpt)%Z.
      * rewrite !str_forallb_app, Hds, str_forallb_repeat by done. done.
      * rewrite !str_forallb_app, str_forallb_take, str_forallb_drop by done. done.
Qed.

Lemma token_float_repr f : str_forallb token_char (float_repr f) = true.
Proof.
  destruct f as [[]|[]| |s m e]; try done.
  unfold float_repr, shortest_digits.
  destruct (shortest_from _ _ _ _ _ _ _) as [d x].
  rewrite str_forallb_app, token_format_repr.
  - by destruct s.
  - apply str_forallb_rstrip, token_pretty_Z.
Qed.

(** ** Scanning *)

Lemma str_app_cons c s t : String c s +:+ t = String c (s +:+ t).
Proof. done. Qed.

Lemma str_app_nil_l s : "" +:+ s = s.
Proof. done. Qed.

Lemma str_app_assoc s1 s2 s3 : (s1 +:+ s2) +:+ s3 = s1 +:+ (s2 +:+ s3).
Proof.
  induction s1 as [|c s1 IH]; [done|]. rewrite !str_app_cons. by rewrite IH.
Qed.

Lemma str_app_nil_r s : s +:+ "" = s.
Proof. induction s as [|c s IH]; [done|]. rewrite str_app_cons. by rewrite IH. Qed.

Lemma token_char_spec c :
  token_char c = true ->
  printable c = true /\ is_ws c = false /\ Ascii.eqb c DQUOTE = false.
Proof. destruct c as [[] [] [] [] [] [] [] []]; done. Qed.

(** A character that stands for itself in a string literal. *)
Lemma literal_char_spec c :
  printable c = true -> Ascii.eqb c DQUOTE = false -> Ascii.eqb c BACKSLASH = false ->
  forall s, scan Inside (String c s) = scan Inside s.
Proof. intros _ H1 H2 s. simpl. by rewrite H1, H2. Qed.

Lemma scan_tokens s rest :
  str_forallb token_char s = true ->
  scan Outside (s +:+ rest) = scan Outside rest.
Proof.
  induction s as [|c s IH]; [done|]. rewrite str_app_cons. cbn [str_forallb scan].
  intros [Hc Hs]%andb_true_iff.
  destruct (token_char_spec c Hc) as (_ & -> & ->). by apply IH.
Qed.

Lemma printable_tokens s :
  str_forallb token_char s = true -> str_forallb printable s = true.
Proof. apply str_forallb_impl. intros c Hc. by apply token_char_spec. Qed.

Lemma hex_digit_spec n :
  (n < 16)%N ->
  printable (hex_digit n) = true
  /\ Ascii.eqb (hex_digit n) DQUOTE = false
  /\ Ascii.eqb (hex_digit n) BACKSLASH = false.
Proof.
  intros Hn.
  pose (plain := fun c => printable c && negb (Ascii.eqb c DQUOTE)
                          && negb (Ascii.eqb c BACKSLASH)).
  assert (plain (hex_digit n) = true) as H.
  { assert (forallb (fun k => plain (hex_digit (N.of_nat k))) (seq 0 16) = true)
      as Hall by done.
    rewrite forallb_forall in Hall. specialize (Hall (N.to_nat n)).
    rewrite N2Nat.id in Hall. apply Hall, in_seq. lia. }
  unfold plain in H.
  apply andb_true_iff in H as [[H1 H2%negb_true_iff]%andb_true_iff H3%negb_true_iff].
  done.
Qed.

Lemma u_escape_spec u :
  str_forallb printable (u_escape u) = true
  /\ forall s, scan Inside (u_escape u +:+ s) = scan Inside s.
Proof.
  destruct (hex_digit_spec ((u / 4096) mod 16)) as (P1 & Q1 & B1);
    [by apply N.mod_lt|].
  destruct (hex_digit_spec ((u / 256) mod 16)) as (P2 & Q2 & B2);
    [by apply N.mod_lt|].
  destruct (hex_digit_spec ((u / 16) mod 16)) as (P3 & Q3 & B3);
    [by apply N.mod_lt|].
  destruct (hex_digit_spec (u mod 16)) as (P4 & Q4 & B4); [by apply N.mod_lt|].
  unfold u_escape. split.
  - cbn [str_forallb]. by rewrite P1, P2, P3, P4.
  - intros s. rewrite !str_app_cons, str_app_nil_l. cbn [scan].
    change (Ascii.eqb BACKSLASH BACKSLASH) with true. cbv iota.
    by rewrite Q1, Q2, Q3, Q4, B1, B2, B3, B4.
Qed.

Lemma chr_spec cp :
  (32 <=? cp)%N && (cp <=? 126)%N = true ->
  (cp =? 34)%N = false -> (cp =? 92)%N = false ->
  printable (chr cp) = true
  /\ Ascii.eqb (chr cp) DQUOTE = false
  /\ Ascii.eqb (chr cp) BACKSLASH = false.
Proof.
  intros [H1%N.leb_le H2%N.leb_le]%andb_true_iff H3%N.eqb_neq H4%N.eqb_neq.
  assert (ord (chr cp) = cp) as Hord by (apply N_ascii_embedding; lia).
  unfold printable. rewrite Hord.
  split; [apply andb_true_iff; split; apply N.leb_le; lia|].
  split; apply Ascii.eqb_neq; intros Heq;
    apply (f_equal ord) in Heq; rewrite Hord in Heq; by vm_compute in Heq.
Qed.

Lemma escape_code_point_spec cp :
  str_forallb printable (escape_code_point cp) = true
  /\ forall s, scan Inside (escape_code_point cp +:+ s) = scan Inside s.
Proof.
  unfold escape_code_point.
  destruct (cp =? 34)%N eqn:E34; [done|].
  destruct (cp =? 92)%N eqn:E92; [done|].
  destruct (cp =? 10)%N; [done|]. destruct (cp =? 13)%N; [done|].
  destruct (cp =? 9)%N; [done|]. destruct (cp =? 8)%N; [done|].
  destruct (cp =? 12)%N; [done|].
  destruct ((32 <=? cp)%N && (cp <=? 126)%N) eqn:Hr.
  { destruct (chr_spec cp Hr E34 E92) as (P & Q & B). split.
    - simpl. by rewrite P.
    - intros s. rewrite str_app_cons, str_app_nil_l. cbn [scan]. by rewrite Q, B. }
  destruct (cp <? 65536)%N; [apply u_escape_spec|].
  destruct (u_escape_spec (55296 + (cp - 65536) / 1024)) as [P1 S1].
  destruct (u_escape_spec (56320 + (cp - 65536) mod 1024)) as [P2 S2].
  split.
  - by rewrite str_forallb_app, P1, P2.
  - intros s. by rewrite str_app_assoc, S1, S2.
Qed.

Lemma escaped_spec cps :
  str_forallb printable (str_concat (map escape_code_point cps)) = true
  /\ forall s, scan Inside (str_concat (map escape_code_point cps) +:+ s)
               = scan Inside s.
Proof.
  induction cps as [|cp cps [IH1 IH2]]; [done|].
  destruct (escape_code_point_spec cp) as [P S]. simpl. split.
  - by rewrite str_forallb_app, P, IH1.
  - intros s. by rewrite str_app_assoc, S, IH2.
Qed.

(** A string literal is printable text that the reader enters and
    leaves. *)
Lemma encode_basestring_ascii_spec s :
  str_forallb printable (encode_basestring_ascii s) = true
  /\ forall rest, scan Outside (encode_basestring_ascii s +:+ rest)
                  = scan Outside rest.
Proof.
  destruct (escaped_spec (code_points s)) as [P S].
  unfold encode_basestring_ascii. split.
  - cbn [str_forallb]. by rewrite str_forallb_app, P.
  - intros rest. rewrite str_app_cons. cbn [scan].
    change (is_ws DQUOTE) with false. rewrite Ascii.eqb_refl. cbv iota.
    rewrite str_app_assoc, S. rewrite str_app_cons, str_app_nil_l. cbn [scan].
    change (Ascii.eqb DQUOTE BACKSLASH) with false. by rewrite Ascii.eqb_refl.
Qed.

(** ** The encoder *)

Lemma json_induction (P : json -> Prop) :
  P JNull -> (forall b, P (JBool b)) -> (forall n, P (JInt n)) ->
  (forall f, P (JFloat f)) -> (forall s, P (JStr s)) ->
  (forall l, Forall P l -> P (JArr l)) ->
  (forall d, Forall (fun kv => P (snd kv)) d -> P (JObj d)) ->
  forall v, P v.
Proof.
  intros HN HB HI HF HS HA HO. fix IH 1.
  intros [|b|n|f|s|l|d];
    [exact HN|apply HB|apply HI|apply HF|apply HS|..].
  - apply HA. revert l. fix IHl 1. intros [|x l]; constructor; [apply IH|apply IHl].
  - apply HO. revert d. fix IHd 1.
    intros [|[k x] d]; constructor; [apply IH|apply IHd].
Qed.

Lemma seamless_app s1 s2 : seamless s1 -> seamless s2 -> seamless (s1 +:+ s2).
Proof.
  intros [P1 S1] [P2 S2]. split.
  - by rewrite str_forallb_app, P1, P2.
  - intros rest. by rewrite str_app_assoc, S1, S2.
Qed.

Lemma seamless_tokens s : str_forallb token_char s = true -> seamless s.
Proof.
  intros Hs. split; [by apply printable_tokens|].
  intros rest. by apply scan_tokens.
Qed.

Lemma seamless_literal s : seamless (encode_basestring_ascii s).
Proof. apply encode_basestring_ascii_spec. Qed.

Lemma seamless_compact s : seamless s -> compact s.
Proof. intros [_ S]. unfold compact. by rewrite <- (str_app_nil_r s), S. Qed.

Lemma seamless_join l :
  Forall seamless l -> seamless (join "," l).
Proof.
  induction 1 as [|x l Hx Hl IH]; [by apply seamless_tokens|].
  destruct l as [|y l]; [done|].
  change (join "," (x :: y :: l)) with (x +:+ "," +:+ join "," (y :: l)).
  apply seamless_app; [done|]. apply seamless_app; [|done].
  by apply seamless_tokens.
Qed.

(** With the separators [","] and [":"], the encoder writes printable
    ASCII without whitespace outside the string literals. *)
Lemma seamless_json_dumps v : seamless (json_dumps "," ":" v).
Proof.
  induction v as [|b|n|f|s|l IH|d IH] using json_induction.
  - by apply seamless_tokens.
  - destruct b; by apply seamless_tokens.
  - apply seamless_tokens, token_pretty_Z.
  - apply seamless_tokens, token_float_repr.
  - apply seamless_literal.
  - cbn [json_dumps]. apply seamless_app; [by apply seamless_tokens|].
    apply seamless_app; [|by apply seamless_tokens].
    apply seamless_join. by apply Forall_fmap.
  - cbn [json_dumps]. apply seamless_app; [by apply seamless_tokens|].
    apply seamless_app; [|by apply seamless_tokens].
    apply seamless_join. apply Forall_fmap. eapply Forall_impl; [exact IH|].
    intros [k x] Hx. cbn [fst snd] in *.
    apply seamless_app; [apply seamless_literal|].
    apply seamless_app; [by apply seamless_tokens|done].
Qed.




(* ===================================================================== *)
(** * Beyond the claims: what else the code shows *)
(* ===================================================================== *)

(** ** What a call may change *)

Lemma ages_refl p : ages p p.
Proof. repeat split; try done. exists []. by rewrite app_nil_r. Qed.

Lemma ages_trans p1 p2 p3 : ages p1 p2 -> ages p2 p3 -> ages p1 p3.
Proof.
  intros (Hc & Ha & Hd & He & (m1 & Hi) & Hx & Hp)
         (Hc' & Ha' & Hd' & He' & (m2 & Hi') & Hx' & Hp').
  repeat split; try congruence; [|auto..].
  exists (m1 ++ m2). by rewrite Hi', Hi, app_assoc.
Qed.

Lemma same_host_refl w : same_host w w.
Proof. by repeat split. Qed.

Lemma same_host_trans w1 w2 w3 : same_host w1 w2 -> same_host w2 w3 -> same_host w1 w3.
Proof.
  unfold same_host. intros (?&?&?&?&?&?&?&?) (?&?&?&?&?&?&?&?).
  repeat split; congruence.
Qed.

Lemma world_grows_refl w : world_grows w w.
Proof.
  split; [apply same_host_refl|]. split; [done|]. split.
  { exists []. by rewrite app_nil_r. }
  split; [|done]. intros pid p Hp. exists p. split; [done|apply ages_refl].
Qed.

Lemma world_grows_trans w1 w2 w3 :
  world_grows w1 w2 -> world_grows w2 w3 -> world_grows w1 w3.
Proof.
  intros (Hh & Hl & (e1 & Hg) & Hp & Hq) (Hh' & Hl' & (e2 & Hg') & Hp' & Hq').
  split; [by eapply same_host_trans|]. split; [congruence|]. split.
  { exists (e1 ++ e2). by rewrite Hg', Hg, app_assoc. }
  split; [|lia]. intros pid p Hpid.
  destruct (Hp _ _ Hpid) as (p2 & Hp2 & Ha).
  destruct (Hp' _ _ Hp2) as (p3 & Hp3 & Ha').
  exists p3. split; [done|by eapply ages_trans].
Qed.

Lemma world_ages_refl w : world_ages w w.
Proof. split; [apply world_grows_refl|done]. Qed.

Lemma world_ages_trans w1 w2 w3 :
  world_ages w1 w2 -> world_ages w2 w3 -> world_ages w1 w3.
Proof.
  intros [Hg [Hp Hq]] [Hg' [Hp' Hq']].
  split; [by eapply world_grows_trans|]. split; congruence.
Qed.

Lemma same_config_refl b : same_config b b.
Proof. by repeat split. Qed.

Lemma same_config_trans b1 b2 b3 :
  same_config b1 b2 -> same_config b2 b3 -> same_config b1 b3.
Proof. unfold same_config. intros (?&?&?) (?&?&?). repeat split; congruence. Qed.

#[local] Instance grows_preorder : PreOrder grows.
Proof.
  split.
  - intros st. split; [apply same_config_refl|apply world_grows_refl].
  - intros st1 st2 st3 [? ?] [? ?].
    split; [by eapply same_config_trans|by eapply world_grows_trans].
Qed.

#[local] Instance calm_preorder : PreOrder calm.
Proof.
  split.
  - intros st. split; [apply same_config_refl|apply world_ages_refl].
  - intros st1 st2 st3 [? ?] [? ?].
    split; [by eapply same_config_trans|by eapply world_ages_trans].
Qed.

#[local] Instance hushed_preorder : PreOrder hushed.
Proof.
  split.
  - intros st. split; [done|apply world_ages_refl].
  - intros st1 st2 st3 [? ?] [? ?].
    split; [congruence|by eapply world_ages_trans].
Qed.

Lemma hushed_calm st st' : hushed st st' -> calm st st'.
Proof.
  intros [He Hw]. split; [|done]. unfold same_config. rewrite He. by repeat split.
Qed.

Lemma calm_grows st st' : calm st st' -> grows st st'.
Proof. intros [Hc [Hw _]]. by split. Qed.

(** The combinators keep any reflexive and transitive relation. *)
Section preserves.
Context (R : state -> state -> Prop) `{!PreOrder R}.
Context {A B : Type}.
#[local] Set Default Proof Using "Type*".

Lemma preserves_ret (a : A) : preserves R (ret a).
Proof. intros st. simpl. reflexivity. Qed.

Lemma preserves_raise e : preserves R (raise (A := A) e).
Proof. intros st. simpl. reflexivity. Qed.

Lemma preserves_bind (m : M A) (k : A -> M B) :
  preserves R m -> (forall a, preserves R (k a)) -> preserves R (bind m k).
Proof.
  intros Hm Hk st. unfold bind. specialize (Hm st).
  destruct (m st) as [[a|e|] st']; [|done..].
  etrans; [exact Hm|apply Hk].
Qed.

Lemma preserves_try_except (m : M A) c h :
  preserves R m -> (forall e, preserves R (h e)) -> preserves R (try_except m c h).
Proof.
  intros Hm Hh st. unfold try_except. specialize (Hm st).
  destruct (m st) as [[a|e|] st']; [done| |done].
  destruct (c e); [|done]. etrans; [exact Hm|apply Hh].
Qed.

Lemma preserves_try_finally (m : M A) f :
  preserves R m -> preserves R f -> preserves R (try_finally m f).
Proof.
  intros Hm Hf st. unfold try_finally. specialize (Hm st).
  destruct (m st) as [[a|e|] st']; [| |done];
    (specialize (Hf st'); destruct (f st') as [[[]|e'|] st'']; simpl in *;
     by etrans).
Qed.

End preserves.

Lemma preserves_for_each R `{!PreOrder R} {A} (l : list A) (body : A -> M unit) :
  (forall x, preserves R (body x)) -> preserves R (for_each l body).
Proof.
  intros Hb. induction l as [|x l IH]; simpl.
  - by apply preserves_ret.
  - by apply preserves_bind.
Qed.

Lemma preserves_self R `{!PreOrder R} : preserves R self.
Proof. intros st. simpl. reflexivity. Qed.

Lemma preserves_the_world R `{!PreOrder R} : preserves R the_world.
Proof. intros st. simpl. reflexivity. Qed.

Lemma preserves_weaken {A} (R R' : state -> state -> Prop) (m : M A) :
  (forall st st', R st st' -> R' st st') -> preserves R m -> preserves R' m.
Proof. intros HR Hm st. apply HR, Hm. Qed.

Lemma hushed_act f :
  (forall w, world_ages w (f w)) -> preserves hushed (act f).
Proof. intros Hf [b w]. split; [done|apply Hf]. Qed.

Lemma grows_act f :
  (forall w, world_grows w (f w)) -> preserves grows (act f).
Proof. intros Hf [b w]. split; [apply same_config_refl|apply Hf]. Qed.

Lemma calm_set_self f :
  (forall b, same_config b (f b)) -> preserves calm (set_self f).
Proof. intros Hf [b w]. split; [apply Hf|apply world_ages_refl]. Qed.

(** What the setters of the world do. *)
Lemma world_ages_add_event ev w : world_ages w (add_event ev w).
Proof.
  split; [|done]. split; [by repeat split|]. split; [done|]. split; [by eexists|].
  split; [|done]. intros pid p Hp. exists p. split; [done|apply ages_refl].
Qed.

Lemma world_ages_set_queues f w :
  (forall qs, length (f qs) = length qs) -> world_ages w (set_queues f w).
Proof.
  intros Hf. split; [|split; [done|apply Hf]].
  split; [by repeat split|]. split; [done|]. split.
  { exists []. by rewrite app_nil_r. }
  split; [|simpl; by rewrite Hf].
  intros pid p Hp. exists p. split; [done|apply ages_refl].
Qed.

Lemma world_ages_enqueue q xs w : world_ages w (enqueue q xs w).
Proof. apply world_ages_set_queues. intros qs. apply length_alter. Qed.

Lemma world_ages_upd_process pid f w :
  (forall p, ages p (f p)) -> world_ages w (upd_process pid f w).
Proof.
  intros Hf. split; [|split; [apply length_procs_upd_process|done]].
  split; [by repeat split|]. split; [done|]. split.
  { exists []. by rewrite app_nil_r. }
  split; [|done]. intros pid' p Hp.
  destruct (decide (pid = pid')) as [<-|Hne].
  - exists (f p). split; [by apply procs_upd_process|apply Hf].
  - exists p. split; [by rewrite procs_upd_process_ne|apply ages_refl].
Qed.

Lemma ages_with_stdin data p : ages p (with_stdin data p).
Proof. repeat split; try done. by eexists. Qed.

Lemma ages_with_exited x p : ages p (with_exited x p).
Proof.
  repeat split; try done.
  - exists []. by rewrite app_nil_r.
  - simpl. by intros ->.
Qed.

Lemma ages_with_pump_done x p : ages p (with_pump_done x p).
Proof.
  repeat split; try done.
  - exists []. by rewrite app_nil_r.
  - simpl. by intros ->.
Qed.

Lemma world_grows_new_queue w : world_grows w (set_queues (fun qs => qs ++ [[]]) w).
Proof.
  split; [by repeat split|]. split; [done|]. split.
  { exists []. by rewrite app_nil_r. }
  split; [|simpl; rewrite length_app; lia].
  intros pid p Hp. exists p. split; [done|apply ages_refl].
Qed.

Lemma world_grows_new_process p0 w :
  world_grows w (set_procs (fun ps => ps ++ [p0]) w).
Proof.
  split; [by repeat split|]. split; [done|]. split.
  { exists []. by rewrite app_nil_r. }
  split; [|done].
  intros pid p Hp. exists p. split; [|apply ages_refl].
  simpl. by apply lookup_app_l_Some.
Qed.

Create HintDb preserves.

Ltac preserve :=
  repeat first
    [ assumption
    | solve [auto with preserves]
    | apply preserves_ret; apply _
    | apply preserves_raise; apply _
    | apply preserves_self; apply _
    | apply preserves_the_world; apply _
    | apply preserves_bind; [apply _| |intros ?]
    | apply preserves_try_except; [apply _| |intros ?]
    | apply preserves_try_finally; [apply _| |]
    | apply preserves_for_each; [apply _|intros ?]
    | match goal with
      | |- preserves _ (match ?x with _ => _ end) => destruct x
      | |- preserves _ (if ?c then _ else _) => destruct c
      end ].

Lemma hushed_queue_put q x : preserves hushed (queue_put q x).
Proof. apply hushed_act. intros w. apply world_ages_enqueue. Qed.

Lemma hushed_add_event ev : preserves hushed (act (add_event ev)).
Proof. apply hushed_act. intros w. apply world_ages_add_event. Qed.

Lemma hushed_upd_process pid f :
  (forall p, ages p (f p)) -> preserves hushed (act (upd_process pid f)).
Proof. intros Hf. apply hushed_act. intros w. by apply world_ages_upd_process. Qed.

#[local] Hint Resolve hushed_queue_put hushed_add_event hushed_upd_process
  ages_with_stdin ages_with_exited ages_with_pump_done : preserves.

Lemma hushed_queue_get q t : preserves hushed (queue_get q t).
Proof.
  unfold queue_get. preserve.
  apply hushed_act. intros w. apply world_ages_set_queues.
  intros qs. apply length_insert.
Qed.

Lemma hushed_put_stdout x : preserves hushed (put_stdout x).
Proof. unfold put_stdout. preserve. Qed.

#[local] Hint Resolve hushed_queue_get hushed_put_stdout : preserves.

Lemma hushed_read_stdout_try lines fin : preserves hushed (read_stdout_try lines fin).
Proof. unfold read_stdout_try, read_stdout_line, end_of_iteration. preserve. Qed.

#[local] Hint Resolve hushed_read_stdout_try : preserves.

Lemma hushed_read_stdout lines fin : preserves hushed (_read_stdout lines fin).
Proof. unfold _read_stdout. preserve. Qed.

#[local] Hint Resolve hushed_read_stdout : preserves.

Lemma hushed_after_reaction pid r : preserves hushed (after_reaction pid r).
Proof. unfold after_reaction. preserve. Qed.

#[local] Hint Resolve hushed_after_reaction : preserves.

Lemma hushed_child_reacts pid r : preserves hushed (child_reacts pid r).
Proof. unfold child_reacts, in_thread. preserve. Qed.

#[local] Hint Resolve hushed_child_reacts : preserves.

Lemma hushed_poll_exited pid : preserves hushed (poll_exited pid).
Proof. unfold poll_exited. preserve. Qed.

Lemma hushed_stdin_write pid data : preserves hushed (stdin_write pid data).
Proof. unfold stdin_write. preserve. Qed.

Lemma hushed_kill pid : preserves hushed (kill pid).
Proof. unfold kill. preserve. Qed.

Lemma hushed_wait pid t : preserves hushed (wait pid t).
Proof. unfold wait. preserve. Qed.

Lemma hushed_read_line t : preserves hushed (_read_line t).
Proof. unfold _read_line. preserve. Qed.

#[local] Hint Resolve hushed_poll_exited hushed_stdin_write hushed_kill hushed_wait
  hushed_read_line : preserves.

Lemma hushed_send_command_locked command params timeout :
  preserves hushed (_send_command_locked command params timeout).
Proof.
  unfold _send_command_locked, on_process, stdin_flush, loads, py_get, py_get_default.
  preserve.
Qed.

#[local] Hint Resolve hushed_send_command_locked : preserves.

Lemma calm_of_hushed {A} (m : M A) : preserves hushed m -> preserves calm m.
Proof. apply preserves_weaken, hushed_calm. Qed.

Lemma grows_of_calm {A} (m : M A) : preserves calm m -> preserves grows m.
Proof. apply preserves_weaken, calm_grows. Qed.

Lemma calm_set_process p : preserves calm (set_self (set_process p)).
Proof. by apply calm_set_self. Qed.

Lemma calm_set_started s : preserves calm (set_self (set_started s)).
Proof. by apply calm_set_self. Qed.

#[local] Hint Resolve calm_set_process calm_set_started : preserves.
#[local] Hint Extern 5 (preserves calm _) =>
  apply calm_of_hushed; solve [auto with preserves] : preserves.

Lemma calm_kill_self : preserves calm _kill.
Proof. unfold _kill, on_process. preserve. Qed.

#[local] Hint Resolve calm_kill_self : preserves.

Lemma calm_await_ready t : preserves calm (await_ready t).
Proof. unfold await_ready, loads, py_get. preserve. Qed.

#[local] Hint Resolve calm_await_ready : preserves.
#[local] Hint Extern 5 (preserves grows _) =>
  apply grows_of_calm; solve [auto with preserves] : preserves.

Lemma grows_set_self f :
  (forall b, same_config b (f b)) -> preserves grows (set_self f).
Proof. intros Hf. apply grows_of_calm. by apply calm_set_self. Qed.

Lemma grows_Popen args cwd env : preserves grows (Popen args cwd env).
Proof.
  unfold Popen. preserve. apply grows_act. intros w.
  eapply world_grows_trans; [apply world_grows_new_process|].
  apply world_ages_add_event.
Qed.

Lemma grows_Queue : preserves grows Queue.
Proof. unfold Queue. preserve. apply grows_act, world_grows_new_queue. Qed.

#[local] Hint Resolve grows_Popen grows_Queue : preserves.

Lemma grows_start timeout : preserves grows (start timeout).
Proof.
  unfold start, start_stdout_thread, start_stderr_thread, in_thread.
  preserve; by apply grows_set_self.
Qed.

Lemma terminates_await_ready t : terminates (await_ready t).
Proof.
  unfold await_ready, loads, py_get.
  pose proof terminates_kill_self. pose proof (terminates_read_line t). terminate.
Qed.

Lemma terminates_start timeout : terminates (start timeout).
Proof.
  unfold start, Popen, Queue, start_stdout_thread, start_stderr_thread, in_thread,
    _read_stdout, read_stdout_try, read_stdout_line, end_of_iteration, put_stdout,
    queue_put, after_reaction.
  pose proof terminates_await_ready. terminate.
Qed.

(** A call that comes to an end and keeps [R] *)
Lemma runs {A} (m : M A) R st :
  terminates m -> preserves R m ->
  exists r st', m st = (r, st') /\ r <> Hang /\ R st st'.
Proof.
  intros Ht Hp. specialize (Ht st). specialize (Hp st).
  destruct (m st) as [r st']. by exists r, st'.
Qed.

Lemma with_lock_run {A} l (m : M A) b w :
  locks w !! l <> Some true ->
  with_lock l m (b, w)
  = match m (b, locked l w) with
    | (Hang, st') => (Hang, st')
    | (r, (b', w')) => (r, (b', unlocked l w'))
    end.
Proof.
  intros Hl. unfold with_lock. mrun. rewrite acquire_free by done. mrun.
  fold (locked l w). destruct (m (b, locked l w)) as [[a|e|] [b' w']]; by mrun.
Qed.

Lemma world_ages_unlock l w w' :
  locks w !! l <> Some true ->
  world_ages (locked l w) w' -> world_ages w (unlocked l w').
Proof.
  intros Hl [(Hh & Hk & Hg & Hp & Hq) [Hn Hm]].
  split; [|done]. split; [done|]. split; [|done].
  simpl. rewrite Hk. apply (f_equal locks (release_acquire l w Hl)).
Qed.

Lemma disposed_grows pid w w' : world_grows w w' -> disposed pid w -> disposed pid w'.
Proof.
  intros (_ & _ & (evs & Hg) & Hp & _) [(p & Hpid & Hx)|Hk].
  - left. destruct (Hp _ _ Hpid) as (p' & Hp' & Ha). exists p'. split; [done|].
    by apply Ha.
  - right. rewrite Hg. apply elem_of_app. by left.
Qed.

Lemma disposed_unlocked pid l w : disposed pid w -> disposed pid (unlocked l w).
Proof. done. Qed.

(** ** More about [start] *)

(** Why [start] may stop before it spawns anything. *)
Lemma start_stops_early b w timeout :
  _started b = false ->
  start timeout (b, w)
  = if negb (is_dir w (src_dir_of w b)) then
      (Raise (LuaBridgeError
                (Fmt [Lit "PoB src directory not found: "; FStr (src_dir_of w b)])
                None), (b, w))
    else if negb (is_file w (bridge_script_of w b)) then
      (Raise (LuaBridgeError
                (Fmt [Lit "Bridge script not found: "; FStr (bridge_script_of w b)])
                None), (b, w))
    else
      match spawn w (length (procs w)) with
      | SpawnFails e => (Raise e, (b, w))
      | Spawned c =>
          await_ready (float_or timeout (BRIDGE_STARTUP_TIMEOUT w))
            (booted_bridge b w, booted_world b w c)
      end.
Proof.
  intros Hs.
  destruct (is_dir w (src_dir_of w b)) eqn:Hd; cbn [negb];
    [destruct (is_file w (bridge_script_of w b)) eqn:Hf; cbn [negb];
     [destruct (spawn w (length (procs w))) as [c|e] eqn:Hc|]|].
  - by apply start_boots.
  - unfold start. mrun. rewrite Hs. mrun. rewrite Hd, Hf. mred.
    unfold Popen. mrun. rewrite Hc. by mrun.
  - unfold start. mrun. rewrite Hs. mrun. rewrite Hd, Hf. by mrun.
  - unfold start. mrun. rewrite Hs. mrun. rewrite Hd. by mrun.
Qed.

(** [start] returns with the flag set, or raises with the flag unset. *)
Lemma start_outcome timeout b w :
  exists r b' w',
    start timeout (b, w) = (r, (b', w'))
    /\ (r = Ret tt /\ _started b' = true
        \/ exists e, r = Raise e /\ _started b = false /\ _started b' = false).
Proof.
  destruct (_started b) eqn:Hs.
  { exists (Ret tt), b, w. split; [|by left]. unfold start. mrun. by rewrite Hs. }
  rewrite start_stops_early by done.
  destruct (negb (is_dir w (src_dir_of w b))).
  { eexists _, _, _. split; [done|]. right. by eexists. }
  destruct (negb (is_file w (bridge_script_of w b))).
  { eexists _, _, _. split; [done|]. right. by eexists. }
  destruct (spawn w (length (procs w))) as [c|e] eqn:Hc.
  2:{ eexists _, _, _. split; [done|]. right. by eexists. }
  destruct (await_ready_runs (booted_bridge b w) (booted_world b w c)
              (float_or timeout (BRIDGE_STARTUP_TIMEOUT w)) (length (procs w))
              (delivered false (c_boot c)) eq_refl (queues_booted_world b w c))
    as (r & b' & w' & -> & H).
  exists r, b', w'. split; [done|].
  destruct (handshake_of _) as [|e|e].
  - destruct H as (-> & -> & _). by left.
  - destruct H as (-> & -> & _). right. by eexists.
  - destruct H as (-> & -> & _). right. by eexists.
Qed.



(** X2. A [start] that returns has set the started flag, and another
    [start] after it does nothing: no second child is spawned, whatever the
    timeout given. *)
Theorem start_twice_spawns_once (b : LuaBridge) (w : world) (t t' : option float)
    (b' : LuaBridge) (w' : world) :
  start t (b, w) = (Ret tt, (b', w')) ->
  _started b' = true /\ start t' (b', w') = (Ret tt, (b', w')).
Proof.
  intros Hr. destruct (start_outcome t b w) as (r & b1 & w1 & Hrun & H).
  rewrite Hr in Hrun. inversion Hrun; subst r b1 w1.
  destruct H as [[_ Hs]|(e & He & _)]; [|done].
  split; [done|]. unfold start. mrun. by rewrite Hs.
Qed.

Lemma start_twice_spawns_once_witness :
  let st := fresh_bridge (ready_then gone) in
  let st' := snd (start None st) in
  _started (fst st') = true
  /\ start (Some thirty) (fst st', snd st') = (Ret tt, (fst st', snd st')).
Proof.
  intros st st'.
  apply (start_twice_spawns_once (fst st) (snd st) None (Some thirty)).
  vm_compute. reflexivity.
Defined.

Lemma length_procs_booted_world b w c :
  length (procs (booted_world b w c)) = S (length (procs w)).
Proof.
  unfold booted_world. cbn zeta. autorewrite with world. simpl.
  rewrite length_app. simpl. lia.
Qed.

Lemma length_queues_booted_world b w c :
  length (queues (booted_world b w c)) = S (length (queues w)).
Proof.
  unfold booted_world. cbn zeta. autorewrite with world. simpl.
  rewrite length_app. simpl. lia.
Qed.

Lemma same_host_booted_world b w c : same_host w (booted_world b w c).
Proof. by repeat split. Qed.

Lemma procs_after_get q t items w : procs (after_get q t items w) = procs w.
Proof. by destruct items. Qed.


Lemma can_spawn_again b w b' w' c :
  same_config b b' -> same_host w w' -> _started b' = false ->
  is_dir w (src_dir_of w b) = true ->
  is_file w (bridge_script_of w b) = true ->
  spawn w (length (procs w')) = Spawned c ->
  can_spawn b' w' c.
Proof.
  intros (Hp & _ & _) (Hsys & _ & _ & _ & _ & Hd & Hf & Hsp) Hs Hdir Hfile Hc.
  unfold can_spawn, is_dir, is_file, src_dir_of, bridge_script_of, path_join,
    IS_WINDOWS in *.
  rewrite Hd, Hf, Hsys, Hp, Hsp. done.
Qed.





(** ** More about [send_command] *)

(** [_send_command_locked] on a child that is alive and takes the request *)
Lemma send_command_locked_runs b w pid p items command params t :
  _process b = Some pid -> procs w !! pid = Some p -> p_exited p = false ->
  queues w !! _stdout_queue b = Some items ->
  c_write (p_child p) (p_stdin p ++ [request_line command params]) = None ->
  let line := request_line command params in
  let found := items ++ delivered (p_pump_done p)
                          (c_reply (p_child p) (p_stdin p ++ [line])) in
  _send_command_locked command params t (b, w)
  = (response_outcome command t (head found),
     (b, after_get (_stdout_queue b) t found (written b pid p line w))).
Proof.
  intros Hp Hpr He Hq Hw line found.
  unfold _send_command_locked. mrun. rewrite Hp.
  rewrite (poll_exited_run _ _ _ p) by done. mrun. rewrite He. mrun.
  fold (request_line command params). fold line.
  unfold on_process at 1. mrun. rewrite Hp.
  rewrite (stdin_write_run _ _ _ p) by done. mrun.
  unfold on_process at 1. mrun. rewrite Hp. unfold stdin_flush. mrun.
  erewrite read_line_run by (by apply queues_written). fold line found.
  unfold response_outcome, timed_out, after_get.
  destruct found as [|[text|] rest]; cbn [head]; mrun; [done| |done].
  unfold loads. destruct (json_loads text) as [v|]; mrun.
  - unfold py_get, py_get_default. destruct v as [| | | | | |d]; mrun; try done.
    destruct (truthy (dict_get "ok" d)); by mrun.
  - cbn [is_JSONDecodeError]. by mrun.
Qed.

(** [send_command] on a started bridge whose lock is free *)
Lemma send_command_started b w command params timeout :
  _started b = true -> lock_free b w ->
  send_command command params timeout (b, w)
  = match _send_command_locked command params
            (float_or timeout (BRIDGE_COMMAND_TIMEOUT w)) (b, locked (_lock b) w) with
    | (Hang, st') => (Hang, st')
    | (r, (b', w')) => (r, (b', unlocked (_lock b) w'))
    end.
Proof.
  intros Hs Hl. unfold send_command. mrun. rewrite Hs. mrun.
  by rewrite with_lock_run.
Qed.

(** [send_command] on a bridge that is not started: [start] comes first. *)
Lemma send_command_unstarted b w command params timeout :
  _started b = false ->
  send_command command params timeout (b, w)
  = match start None (b, w) with
    | (Ret _, st') => send_command command params timeout st'
    | (Raise e, st') => (Raise e, st')
    | (Hang, st') => (Hang, st')
    end.
Proof.
  intros Hs. destruct (start_outcome None b w) as (r & b' & w' & Hrun & H).
  unfold send_command at 1. mrun. rewrite Hs. mred. rewrite Hrun.
  destruct H as [[-> Hs']|(e & -> & _)]; [|done].
  unfold send_command. mrun. by rewrite Hs'.
Qed.

Lemma locks_written b w pid p data : locks (written b pid p data w) = locks w.
Proof. unfold written, reacted. by autorewrite with world. Qed.

Lemma log_written b w pid p data :
  log (written b pid p data w) = log w ++ [EvWrite pid data].
Proof. unfold written, reacted. by autorewrite with world. Qed.

Lemma written_locked l b w pid p data :
  written b pid p data (locked l w) = locked l (written b pid p data w).
Proof. reflexivity. Qed.

Lemma after_get_locked l q t items w :
  after_get q t items (locked l w) = locked l (after_get q t items w).
Proof. by destruct items. Qed.

Lemma add_event_locked l ev w : add_event ev (locked l w) = locked l (add_event ev w).
Proof. reflexivity. Qed.

Lemma unlocked_locked l w : locks w !! l <> Some true -> unlocked l (locked l w) = w.
Proof. apply release_acquire. Qed.

Lemma unlocked_locked_queue l q t items w pid p data b :
  locks w !! l <> Some true ->
  unlocked l (after_get q t items (written b pid p data (locked l w)))
  = after_get q t items (written b pid p data w).
Proof.
  intros Hl. rewrite written_locked, after_get_locked. apply unlocked_locked.
  by rewrite locks_after_get, locks_written.
Qed.

Lemma response_outcome_ends command t item : response_outcome command t item <> Hang.
Proof.
  unfold response_outcome. destruct item as [[line|]|]; [|done..].
  destruct (json_loads line) as [[| | | | | |d]|]; try done.
  by destruct (truthy (dict_get "ok" d)).
Qed.

(** The state after a command on a running bridge *)
Lemma send_command_world b w pid p items command params timeout :
  can_send b w pid p items (request_line command params) ->
  let line := request_line command params in
  let t := float_or timeout (BRIDGE_COMMAND_TIMEOUT w) in
  let found := items ++ delivered (p_pump_done p)
                          (c_reply (p_child p) (p_stdin p ++ [line])) in
  send_command command params timeout (b, w)
  = (response_outcome command t (head found),
     (b, after_get (_stdout_queue b) t found (written b pid p line w))).
Proof.
  intros (Hs & Hl & Hp & Hpr & He & Hq & Hw) line t found.
  rewrite send_command_started by done.
  rewrite (send_command_locked_runs _ _ pid p items) by done.
  fold line found t.
  pose proof (response_outcome_ends command t (head found)) as Hends.
  destruct (response_outcome command t (head found)); mred; [| |done];
    by rewrite unlocked_locked_queue.
Qed.

Lemma queues_after_written b w pid p items t data :
  queues w !! _stdout_queue b = Some items ->
  let found := items ++ delivered (p_pump_done p)
                          (c_reply (p_child p) (p_stdin p ++ [data])) in
  queues (after_get (_stdout_queue b) t found (written b pid p data w))
    !! _stdout_queue b = Some (tail found).
Proof. intros Hq found. by apply queues_after_get, queues_written. Qed.







Lemma unlocked_add_event_locked l ev w :
  locks w !! l <> Some true ->
  unlocked l (add_event ev (locked l w)) = add_event ev w.
Proof. intros Hl. rewrite add_event_locked. by apply unlocked_locked. Qed.

(** X9. When writing the request to the child fails with an [OSError]
    (a broken pipe, say), [send_command] raises [LuaBridgeError] "Failed to
    write to bridge: ..." with that error as its cause; any other
    exception of the write, such as the [ValueError] of a closed file,
    goes through as it is.  Either way nothing is read from the queue,
    the lock is free again, and all that has happened is the attempt to
    write. *)
Theorem send_command_write_failure (b : LuaBridge) (w : world)
    (pid : nat) (p : process)
    (command : string) (params : option dict) (timeout : option float) (e : exn) :
  _started b = true -> lock_free b w ->
  _process b = Some pid -> procs w !! pid = Some p -> p_exited p = false ->
  c_write (p_child p) (p_stdin p ++ [request_line command params]) = Some e ->
  send_command command params timeout (b, w)
  = (Raise (if is_OSError e
            then LuaBridgeError
                   (Fmt [Lit "Failed to write to bridge: "; FStr (exn_str e)]) (Some e)
            else e),
     (b, add_event (EvWrite pid (request_line command params)) w)).
Proof.
  intros Hs Hl Hp Hpr He Hw.
  rewrite send_command_started by done.
  unfold _send_command_locked. mrun. rewrite Hp.
  rewrite (poll_exited_run _ _ _ p) by done. mrun. rewrite He. mrun.
  fold (request_line command params).
  unfold on_process at 1. mrun. rewrite Hp.
  unfold stdin_write. mrun. autorewrite with world.
  change (procs (locked (_lock b) w)) with (procs w). rewrite Hpr, Hw. mrun.
  destruct (is_OSError e); mrun; by rewrite unlocked_add_event_locked.
Qed.

Lemma send_command_write_failure_witness :
  let c := {| c_boot := prints [ready_line];
              c_write := fun _ => Some (BrokenPipeError "[Errno 32] Broken pipe");
              c_reply := fun _ => gone;
              c_exits_in_time := fun _ => true;
              c_kill := None; c_dies := true |} in
  let st := started_bridge c in
  send_command "get_stats" None None (fst st, snd st)
  = (Raise (LuaBridgeError
              (Fmt [Lit "Failed to write to bridge: "; FStr "[Errno 32] Broken pipe"])
              (Some (BrokenPipeError "[Errno 32] Broken pipe"))),
     (fst st, add_event (EvWrite 0 (request_line "get_stats" None)) (snd st))).
Proof.
  intros c st.
  eapply (send_command_write_failure (fst st) (snd st) 0 _ "get_stats" None None
            (BrokenPipeError "[Errno 32] Broken pipe")).
  - reflexivity.
  - vm_compute. discriminate.
  - reflexivity.
  - vm_compute. reflexivity.
  - reflexivity.
  - reflexivity.
Defined.

Lemma locks_booted_got b w c t items :
  locks (after_get (length (queues w)) t items (booted_world b w c)) = locks w.
Proof. by rewrite locks_after_get, locks_booted_world. Qed.

(** A command on a started bridge ends, keeps the bridge object, and
    leaves the world aged, with the lock free again. *)
Lemma send_command_started_ages b w command params timeout :
  _started b = true -> lock_free b w ->
  exists r w',
    send_command command params timeout (b, w) = (r, (b, w'))
    /\ r <> Hang /\ world_ages w w'.
Proof.
  intros Hs Hl. rewrite send_command_started by done.
  destruct (runs (_send_command_locked command params
                    (float_or timeout (BRIDGE_COMMAND_TIMEOUT w)))
              hushed (b, locked (_lock b) w)
              (terminates_send_command_locked _ _ _)
              (hushed_send_command_locked _ _ _))
    as (r & [b' w'] & -> & Hr & Hb & Hw). cbn [fst snd] in *. subst b'.
  exists r, (unlocked (_lock b) w').
  split; [by destruct r|]. split; [done|]. by apply world_ages_unlock.
Qed.





(** ** [_kill] and [shutdown] *)

(** [_kill] returns, and the world has only aged. *)
Lemma kill_self_ages b w :
  exists w', _kill (b, w) = (Ret tt, (set_started false (set_process None b), w'))
             /\ world_ages w w'.
Proof.
  pose proof (calm_kill_self (b, w)) as [_ Hages].
  destruct (_process b) as [pid|] eqn:Hp.
  - destruct (kill_self_kills b w pid Hp) as (w' & Hrun & _).
    rewrite Hrun in Hages. by exists w'.
  - exists w. split; [|apply world_ages_refl].
    unfold _kill. mrun. rewrite Hp. mrun. destruct b. simpl in Hp. by subst.
Qed.

(** X12. [_kill] never raises, whatever [kill] and [wait] do: it returns
    with the process handle cleared and the started flag unset.  If the
    bridge had a process, a kill was sent to it; nothing is spawned, and
    with no process the world is left as it was. *)
Theorem kill_self_never_raises (b : LuaBridge) (w : world) :
  exists w',
    _kill (b, w) = (Ret tt, (set_started false (set_process None b), w'))
    /\ world_ages w w'
    /\ (forall pid, _process b = Some pid -> EvKill pid ∈ log w')
    /\ (_process b = None -> w' = w).
Proof.
  pose proof (calm_kill_self (b, w)) as [_ Hages].
  destruct (_process b) as [pid|] eqn:Hp.
  - destruct (kill_self_kills b w pid Hp) as (w' & Hrun & _ & Hin).
    rewrite Hrun in Hages. exists w'. split; [done|]. split; [done|].
    split; [by intros ? [= <-]|done].
  - exists w. split.
    + unfold _kill. mrun. rewrite Hp. mrun. destruct b. simpl in Hp. by subst.
    + split; [apply world_ages_refl|]. by split.
Qed.

Lemma procs_reacted b pid p r w :
  procs w !! pid = Some p ->
  procs (reacted b pid p r w) !! pid
  = Some (with_exited (r_exits r)
            (with_pump_done (negb (is_open (r_end r))) p)).
Proof.
  intros Hp. unfold reacted.
  apply procs_upd_process, procs_upd_process. by autorewrite with world.
Qed.

Lemma procs_written b pid p data w :
  procs w !! pid = Some p ->
  procs (written b pid p data w) !! pid
  = Some (with_exited (r_exits (c_reply (p_child p) (p_stdin p ++ [data])))
            (with_pump_done
               (negb (is_open (r_end (c_reply (p_child p) (p_stdin p ++ [data])))))
               (with_stdin data p))).
Proof.
  intros Hp. unfold written. apply procs_reacted, procs_upd_process.
  by autorewrite with world.
Qed.

Lemma log_reacted b pid p r w : log (reacted b pid p r w) = log w.
Proof. unfold reacted. by autorewrite with world. Qed.

Lemma log_grows ev w w' : world_grows w w' -> ev ∈ log w -> ev ∈ log w'.
Proof. intros (_ & _ & (evs & ->) & _) Hin. apply elem_of_app. by left. Qed.

(** [wait] returns when the child is gone, and raises [TimeoutExpired]
    otherwise. *)
Lemma wait_outcome b w pid p t :
  procs w !! pid = Some p ->
  exists r w',
    wait pid t (b, w) = (r, (b, w'))
    /\ world_ages w w'
    /\ log w' = log w ++ [EvWait pid t]
    /\ (if p_exited p || c_exits_in_time (p_child p) (p_stdin p)
        then r = Ret tt
             /\ exists p', procs w' !! pid = Some p' /\ p_exited p' = true
                           /\ p_stdin p' = p_stdin p
        else r = Raise TimeoutExpired).
Proof.
  intros Hp. pose proof (hushed_wait pid t (b, w)) as [_ Hages].
  revert Hages. unfold wait. mrun. autorewrite with world. rewrite Hp. mred.
  destruct (p_exited p) eqn:He; mrun.
  { intros Hages. eexists _, _. split; [done|]. split; [done|].
    split; [by autorewrite with world|]. split; [done|].
    exists p. by autorewrite with world. }
  destruct (c_exits_in_time (p_child p) (p_stdin p)); mrun.
  - rewrite (child_reacts_run _ _ _ p) by (by autorewrite with world).
    intros Hages. eexists _, _. split; [done|]. split; [done|].
    split; [rewrite log_reacted; by autorewrite with world|]. split; [done|].
    eexists. split; [apply procs_reacted; by autorewrite with world|].
    split; [|done]. simpl. by rewrite orb_true_r.
  - intros Hages. eexists _, _. split; [done|]. split; [done|].
    split; [by autorewrite with world|done].
Qed.

(** The request of [shutdown] is written, whatever comes of it. *)
Lemma send_command_locked_logs_write b w pid p command params t :
  _process b = Some pid -> procs w !! pid = Some p -> p_exited p = false ->
  exists r w',
    _send_command_locked command params t (b, w) = (r, (b, w'))
    /\ r <> Hang /\ world_ages w w'
    /\ EvWrite pid (request_line command params) ∈ log w'.
Proof.
  intros Hp Hpr He.
  destruct (runs (_send_command_locked command params t) hushed (b, w)
              (terminates_send_command_locked _ _ _)
              (hushed_send_command_locked _ _ _))
    as (r & [b' w'] & Hrun & Hr & Hb & Hw). cbn [fst snd] in *. subst b'.
  exists r, w'. split; [done|]. split; [done|]. split; [done|].
  assert (EvWrite pid (request_line command params)
          ∈ log (snd (snd (_send_command_locked command params t (b, w))))) as Hin;
    [|by rewrite Hrun in Hin].
  clear Hrun Hr Hw.
  assert (forall w0, EvWrite pid (request_line command params)
                     ∈ log (add_event (EvWrite pid (request_line command params)) w0))
    as Hnew.
  { intros w0. autorewrite with world. apply elem_of_app. right.
    by apply list_elem_of_singleton. }
  unfold _send_command_locked. rewrite bind_run, self_run. mred. rewrite Hp.
  rewrite bind_run, (poll_exited_run _ _ _ p) by done. mred. rewrite He. mred.
  fold (request_line command params).
  rewrite bind_run, try_except_run, bind_run.
  unfold on_process at 1. rewrite bind_run, self_run. mred. rewrite Hp.
  destruct (c_write (p_child p) (p_stdin p ++ [request_line command params]))
    as [e|] eqn:Hwr.
  - unfold stdin_write. mrun. autorewrite with world. rewrite Hpr, Hwr. mrun.
    destruct (is_OSError e); mrun; apply Hnew.
  - rewrite (stdin_write_run _ _ _ p) by done. mred.
    unfold on_process at 1. rewrite bind_run, self_run. mred. rewrite Hp.
    unfold stdin_flush. rewrite ret_run. mred.
    match goal with
    | |- _ ∈ log (snd (snd (?m (b, ?W)))) =>
        assert (preserves hushed m) as Hm
    end.
    { unfold loads, py_get, py_get_default. preserve. }
    match goal with
    | |- _ ∈ log (snd (snd (?m (b, ?W)))) =>
        destruct (Hm (b, W)) as (_ & Hg & _)
    end.
    eapply log_grows; [exact Hg|]. cbn [fst snd]. rewrite log_written. apply elem_of_app. right.
    by apply list_elem_of_singleton.
Qed.

(** Lines 234-237: the request is written; what comes of it is ignored. *)
Lemma shutdown_request_run b w pid p :
  _process b = Some pid -> procs w !! pid = Some p -> p_exited p = false ->
  exists w',
    try_except (_send_command_locked "shutdown" None five_seconds >> ret tt)
      is_Exception (fun _ => ret tt) (b, w)
    = (Ret tt, (b, w'))
    /\ world_ages w w'
    /\ EvWrite pid (request_line "shutdown" None) ∈ log w'.
Proof.
  intros Hp Hpr He. rewrite try_except_run, bind_run.
  destruct (send_command_locked_logs_write b w pid p "shutdown" None five_seconds
              Hp Hpr He) as (r & w' & -> & Hr & Hw & Hin).
  exists w'. split; [|done]. destruct r as [a|e|]; [| |done]; by mrun.
Qed.

(** Lines 238-242: the child is waited for, and killed if it stays. *)
Lemma reap_run b w pid p :
  _process b = Some pid -> procs w !! pid = Some p ->
  exists r w',
    try_except
      (on_process "wait" (fun pid => wait pid 5))
      is_TimeoutExpired
      (fun _ =>
         on_process "kill" kill >>
         on_process "wait" (fun pid => wait pid 5)) (b, w)
    = (r, (b, w'))
    /\ r <> Hang /\ world_ages w w' /\ disposed pid w'.
Proof.
  intros Hp Hpr. rewrite try_except_run.
  unfold on_process at 1. rewrite bind_run, self_run. mred. rewrite Hp.
  destruct (wait_outcome b w pid p 5 Hpr) as (r & w1 & -> & Hw1 & _ & Hout).
  destruct (p_exited p || c_exits_in_time (p_child p) (p_stdin p)).
  { destruct Hout as (-> & p' & Hp' & Hx & _). exists (Ret tt), w1.
    split; [done|]. split; [done|]. split; [done|]. left. by exists p'. }
  subst r. cbn [is_TimeoutExpired]. mred. rewrite bind_run.
  unfold on_process at 1. rewrite bind_run, self_run. mred. rewrite Hp.
  pose proof (hushed_kill pid (b, w1)) as [_ Hw2].
  destruct (kill_run b w1 pid) as (r2 & w2 & Hrun2 & Hr2 & _ & Hin).
  rewrite Hrun2 in Hw2 |- *. cbn [fst snd] in Hw2.
  destruct r2 as [[]|e|]; [| |done]; mred.
  - unfold on_process. rewrite bind_run, self_run. mred. rewrite Hp.
    destruct (runs (wait pid 5) hushed (b, w2) (terminates_wait _ _)
                (hushed_wait _ _)) as (r3 & [b3 w3] & -> & Hr3 & Hb3 & Hw3).
    cbn [fst snd] in *. subst b3. exists r3, w3.
    split; [done|]. split; [done|].
    split; [eapply world_ages_trans; [exact Hw1|by eapply world_ages_trans]|].
    right. eapply log_grows; [apply Hw3|done].
  - exists (Raise e), w2. split; [done|]. split; [done|].
    split; [by eapply world_ages_trans|by right].
Qed.



(** X14. The graceful path of [shutdown]: when the child takes the request
    and has exited by the end of the grace period, [shutdown] writes the
    request, reads once with a timeout of five seconds, waits once, and
    does nothing else; in particular it sends no kill.  What the child
    answers, if anything, makes no difference. *)
Theorem shutdown_graceful (b : LuaBridge) (w : world) (pid : nat) (p : process)
    (items : list (option string)) :
  can_send b w pid p items (request_line "shutdown" None) ->
  r_exits (c_reply (p_child p) (p_stdin p ++ [request_line "shutdown" None]))
  || c_exits_in_time (p_child p) (p_stdin p ++ [request_line "shutdown" None])
  = true ->
  exists b' w' p',
    shutdown (b, w) = (Ret tt, (b', w'))
    /\ log w' = log w ++ [EvWrite pid (request_line "shutdown" None);
                          EvGet (_stdout_queue b) five_seconds;
                          EvWait pid 5]
    /\ procs w' !! pid = Some p'
    /\ p_exited p' = true
    /\ p_stdin p' = p_stdin p ++ [request_line "shutdown" None].
Proof.
  intros (Hs & Hl & Hp & Hpr & He & Hq & Hw) Hgone.
  unfold shutdown. rewrite bind_run, self_run. mred. rewrite Hs. mred.
  rewrite try_finally_run, try_except_run, with_lock_run by done.
  rewrite bind_run, self_run. mred. rewrite Hp.
  rewrite !bind_run, (poll_exited_run _ _ _ p) by done. mred. rewrite He.
  mred. rewrite ret_run. mred. rewrite bind_run, try_except_run, bind_run.
  rewrite (send_command_locked_runs _ _ pid p items) by done.
  set (line := request_line "shutdown" None) in *.
  set (found := items ++ delivered (p_pump_done p)
                          (c_reply (p_child p) (p_stdin p ++ [line]))).
  set (W1 := after_get (_stdout_queue b) five_seconds found
               (written b pid p line (locked (_lock b) w))).
  set (p2 := with_exited (r_exits (c_reply (p_child p) (p_stdin p ++ [line])))
               (with_pump_done
                  (negb (is_open (r_end (c_reply (p_child p) (p_stdin p ++ [line])))))
                  (with_stdin line p))).
  assert (procs W1 !! pid = Some p2) as Hp2.
  { unfold W1. rewrite procs_after_get. by apply procs_written. }
  destruct (wait_outcome b W1 pid p2 5 Hp2) as (r & w2 & Hrun & _ & Hlog & Hout).
  assert (p_exited p2 || c_exits_in_time (p_child p2) (p_stdin p2) = true) as Hc.
  { simpl. by rewrite He. }
  rewrite Hc in Hout. destruct Hout as (-> & p' & Hp' & Hx & Hin).
  assert (log w2 = log w ++ [EvWrite pid line; EvGet (_stdout_queue b) five_seconds;
                             EvWait pid 5]) as Hlog2.
  { rewrite Hlog. unfold W1. rewrite log_after_get, log_written.
    by rewrite <- !app_assoc. }
  assert (forall r0 : outcome json, r0 <> Hang ->
    (let (o, st') :=
       let (o, st') := (r0, (b, W1)) in
       match o with
       | Ret _ => (ret tt : M unit) st'
       | Raise e => (Raise e, st')
       | Hang => (Hang, st')
       end in
     match o with
     | Raise e => if is_Exception e then (ret tt : M unit) st' else (Raise e, st')
     | _ => (o, st')
     end) = (Ret tt, (b, W1))) as Hswallow.
  { intros [a|e|] Hr0; [| |done]; by mrun. }
  exists (set_started false (set_process None b)), (unlocked (_lock b) w2), p'.
  split; [|done].
  pose proof (response_outcome_ends "shutdown" five_seconds (head found)) as Hends.
  destruct (response_outcome "shutdown" five_seconds (head found)) as [a|e|];
    [| |done]; mrun; cbn [is_Exception]; mrun; unfold on_process; mrun;
    rewrite Hp, Hrun; by mrun.
Qed.

Lemma shutdown_graceful_witness :
  let st := started_bridge (ready_then gone) in
  exists p,
    procs (snd st) !! 0 = Some p
    /\ exists b' w' p',
         shutdown (fst st, snd st) = (Ret tt, (b', w'))
         /\ log w' = log (snd st)
                     ++ [EvWrite 0 (request_line "shutdown" None);
                         EvGet (_stdout_queue (fst st)) five_seconds;
                         EvWait 0 5]
         /\ procs w' !! 0 = Some p'
         /\ p_exited p' = true
         /\ p_stdin p' = p_stdin p ++ [request_line "shutdown" None].
Proof.
  intros st. eexists. split; [vm_compute; reflexivity|].
  apply (shutdown_graceful (fst st) (snd st) 0 _ []).
  - repeat split; try reflexivity. vm_compute. discriminate.
  - reflexivity.
Defined.

(** ** The constructor and [config.py] *)



(** ** The callers *)

(** [is_running] only looks. *)
Lemma is_running_pure b w : exists x, is_running (b, w) = (Ret x, (b, w)).
Proof.
  unfold is_running, poll_exited. mrun.
  destruct (_started b); mrun; [|by eexists].
  destruct (_process b); mrun; by eexists.
Qed.

(** A started bridge that is not running refuses every command, and
    nothing changes. *)
Lemma send_command_when_not_running b w command params timeout :
  _started b = true -> lock_free b w ->
  fst (is_running (b, w)) = Ret false ->
  send_command command params timeout (b, w)
  = (Raise (LuaBridgeError (Obj (JStr "Bridge subprocess is not running")) None),
     (b, w)).
Proof.
  intros Hs Hl. unfold is_running, poll_exited. mrun. rewrite Hs. mrun.
  intros Hrun. rewrite send_command_started by done.
  unfold _send_command_locked, poll_exited. mrun.
  change (procs (locked (_lock b) w)) with (procs w).
  destruct (_process b) as [pid|]; mrun.
  - revert Hrun. mrun. intros [= Hx]. apply negb_false_iff in Hx.
    change (procs (locked (_lock b) w)) with (procs w). rewrite Hx.
    mrun. by rewrite unlocked_locked.
  - by rewrite unlocked_locked.
Qed.

(** X16. What [call] of the MCP server comes to: [send_command] on the
    global bridge, which is created first if there is none.  The check of
    [is_running] and the [start] in [get_bridge] add nothing to what
    [send_command] does by itself: a bridge that is not started is started
    either way, and a started bridge whose child has died is not started
    again.  Afterwards the global holds the bridge. *)
Theorem mcp_call_is_send_command (g : option LuaBridge) (w : world)
    (command : string) (params : option dict) :
  let st0 := match g with
             | Some b => (b, w)
             | None => __init__ None None w
             end in
  Mcp.call command params (g, w)
  = (fst (send_command command params None st0),
     (Some (fst (snd (send_command command params None st0))),
      snd (snd (send_command command params None st0)))).
Proof.
  intros st0.
  assert (Mcp.call command params (g, w) = Mcp.call command params (Some (fst st0), snd st0))
    as ->.
  { unfold Mcp.call, Mcp.get_bridge. cbn [fst snd]. subst st0.
    destruct g as [b|]; [done|]. by destruct (__init__ None None w). }
  destruct st0 as [b w0]. cbn [fst snd].
  unfold Mcp.call, Mcp.get_bridge. cbn [fst snd].
  destruct (is_running_pure b w0) as (x & Hrun). rewrite Hrun.
  destruct x.
  { by destruct (send_command command params None (b, w0)) as [r [b' w']]. }
  destruct (_started b) eqn:Hs.
  - unfold start. mrun. rewrite Hs. mrun.
    by destruct (send_command command params None (b, w0)) as [r [b' w']].
  - rewrite (send_command_unstarted b w0) by done.
    destruct (start None (b, w0)) as [[[]|e|] [b1 w1]]; [|done..].
    by destruct (send_command command params None (b1, w1)) as [r [b' w']].
Qed.

(** X17. The MCP server does not recover from a dead child.  Once the
    global bridge is started and its child has exited (or its handle is
    gone), [call] raises [LuaBridgeError] "Bridge subprocess is not
    running" and leaves everything as it was, so every later [call] does
    the same: [get_bridge] sees that the bridge is not running and calls
    [start], which returns at once because the started flag is still
    set. *)
Theorem mcp_call_on_dead_child (b : LuaBridge) (w : world)
    (command : string) (params : option dict) :
  _started b = true -> lock_free b w ->
  fst (is_running (b, w)) = Ret false ->
  Mcp.get_bridge (Some b, w) = (Ret b, (Some b, w))
  /\ Mcp.call command params (Some b, w)
     = (Raise (LuaBridgeError (Obj (JStr "Bridge subprocess is not running")) None),
        (Some b, w)).
Proof.
  intros Hs Hl Hdead.
  assert (Mcp.get_bridge (Some b, w) = (Ret b, (Some b, w))) as Hget.
  { unfold Mcp.get_bridge. cbn [fst snd].
    destruct (is_running_pure b w) as (x & Hrun). rewrite Hrun in Hdead |- *.
    injection Hdead as ->. unfold start. mrun. by rewrite Hs. }
  split; [done|]. unfold Mcp.call. rewrite Hget.
  by rewrite send_command_when_not_running.
Qed.

Lemma mcp_call_on_dead_child_witness :
  let st := snd (send_command "get_stats" None None (started_bridge (ready_then gone))) in
  Mcp.get_bridge (Some (fst st), snd st) = (Ret (fst st), (Some (fst st), snd st))
  /\ Mcp.call "get_stats" None (Some (fst st), snd st)
     = (Raise (LuaBridgeError (Obj (JStr "Bridge subprocess is not running")) None),
        (Some (fst st), snd st)).
Proof.
  intros st. apply (mcp_call_on_dead_child (fst st) (snd st) "get_stats" None).
  - reflexivity.
  - vm_compute. discriminate.
  - vm_compute. reflexivity.
Defined.

Lemma is_running_started b w st :
  is_running (b, w) = (Ret true, st) -> _started b = true.
Proof.
  unfold is_running. mrun. destruct (_started b); [done|]. by mrun.
Qed.

Lemma is_running_can_send b w pid p items data :
  can_send b w pid p items data -> is_running (b, w) = (Ret true, (b, w)).
Proof.
  intros (Hs & _ & Hp & Hpr & He & _). unfold is_running. mrun.
  rewrite Hs. mrun. rewrite Hp. mred. rewrite bind_run.
  rewrite (poll_exited_run _ _ _ p) by done. mrun. by rewrite He.
Qed.

(** X18. [bridge_call] of the REST server answers 503 "Lua bridge is not
    running" when there is no bridge, when the bridge is not started, and
    when its child has exited; it then does nothing at all: unlike the MCP
    server it neither creates nor starts a bridge, and it does not reach
    [send_command], so the bridge's own "not running" error never shows. *)
Theorem rest_bridge_call_unavailable (g : option LuaBridge) (w : world)
    (command : string) (params : option dict) :
  match g with
  | Some b => fst (is_running (b, w)) = Ret false
  | None => True
  end ->
  Rest.bridge_call command params (g, w)
  = (Rest.HTTPException 503 (Rest.Text "Lua bridge is not running") None, (g, w)).
Proof.
  intros Hdead. unfold Rest.bridge_call, Rest.get_bridge. cbn [fst snd].
  destruct g as [b|]; [|done].
  destruct (is_running_pure b w) as (x & Hrun). rewrite Hrun in Hdead |- *.
  by injection Hdead as ->.
Qed.

Lemma rest_bridge_call_unavailable_witness :
  let st := snd (send_command "get_stats" None None (started_bridge (ready_then gone))) in
  Rest.bridge_call "get_stats" None (Some (fst st), snd st)
  = (Rest.HTTPException 503 (Rest.Text "Lua bridge is not running") None,
     (Some (fst st), snd st)).
Proof.
  intros st.
  apply (rest_bridge_call_unavailable (Some (fst st)) (snd st) "get_stats" None).
  vm_compute. reflexivity.
Defined.





(** X21. When [start] fails in [lifespan], the [shutdown] of the [finally]
    clause does nothing: a failed [start] leaves the started flag unset
    in every case, and [shutdown] returns at once on such a bridge.  The
    exception of [start] goes on as it is, and the state is the one
    [start] left; so a child that [start] left running is still running. *)
Theorem rest_lifespan_failed_start (g : option LuaBridge) (w : world) (e : exn)
    (b1 : LuaBridge) (w1 : world) :
  start None (__init__ None None w) = (Raise e, (b1, w1)) ->
  Rest.lifespan_startup (g, w) = (Raise e, (Some b1, w1))
  /\ shutdown (b1, w1) = (Ret tt, (b1, w1))
  /\ Rest.lifespan_shutdown (Some b1, w1) = (Ret tt, (Some b1, w1)).
Proof.
  intros Hrun.
  assert (shutdown (b1, w1) = (Ret tt, (b1, w1))) as Hsh.
  { destruct (__init__ None None w) as [b0 w0].
    destruct (start_outcome None b0 w0) as (r & b' & w' & Hrun' & Hout).
    rewrite Hrun in Hrun'. inversion Hrun'; subst r b' w'.
    destruct Hout as [[[=] _]|(e' & _ & _ & Hs)].
    unfold shutdown. mrun. by rewrite Hs. }
  split; [|split; [done|]].
  - unfold Rest.lifespan_startup. cbn [snd].
    destruct (__init__ None None w) as [b0 w0]. by rewrite Hrun, Hsh.
  - unfold Rest.lifespan_shutdown. cbn [fst snd]. by rewrite Hsh.
Qed.

Lemma rest_lifespan_failed_start_witness :
  let w := host ∅ (scripted (prints ["42" +:+ NL]) gone) in
  let st1 := snd (start None (__init__ None None w)) in
  Rest.lifespan_startup (None, w)
  = (Raise (AttributeError "'int' object has no attribute 'get'"),
     (Some (fst st1), snd st1))
  /\ shutdown (fst st1, snd st1) = (Ret tt, (fst st1, snd st1))
  /\ Rest.lifespan_shutdown (Some (fst st1), snd st1)
     = (Ret tt, (Some (fst st1), snd st1)).
Proof.
  intros w st1.
  apply (rest_lifespan_failed_start None w).
  vm_compute. reflexivity.
Defined.

(** ** One call after another *)

(** [shutdown] with the lock free returns, with the flag unset, nothing
    spawned, and the bridge's paths and lock kept. *)
Lemma shutdown_runs b w :
  lock_free b w ->
  exists b' w',
    shutdown (b, w) = (Ret tt, (b', w'))
    /\ _started b' = false /\ same_config b b' /\ world_ages w w'.
Proof.
  intros Hl. destruct (_started b) eqn:Hs.
  2:{ exists b, w. split; [unfold shutdown; mrun; by rewrite Hs|].
      split; [done|]. split; [apply same_config_refl|apply world_ages_refl]. }
  unfold shutdown. rewrite bind_run, self_run. mred. rewrite Hs. mred.
  rewrite try_finally_run, try_except_run, with_lock_run by done.
  match goal with |- context [match ?m (b, locked ?l w) with _ => _ end] =>
    destruct (runs m calm (b, locked l w)) as (r & [b1 w1] & -> & Hr & Hc & Hw)
  end.
  { pose proof terminates_send_command_locked. pose proof terminates_kill.
    pose proof terminates_wait. unfold on_process, poll_exited. terminate. }
  { unfold on_process. preserve. }
  cbn [fst snd] in *.
  assert (world_ages w (unlocked (_lock b) w1)) as Hw1 by by apply world_ages_unlock.
  destruct r as [[]|e|]; [| |done]; mred.
  - mrun. eexists _, _. split; [done|]. split; [done|]. split; [|done].
    destruct Hc as (? & ? & ?). by repeat split.
  - cbn [is_Exception]. mred.
    destruct (kill_self_ages b1 (unlocked (_lock b) w1)) as (w2 & -> & Hw2).
    mrun. eexists _, _. split; [done|]. split; [done|].
    split; [|by eapply world_ages_trans].
    destruct Hc as (? & ? & ?). by repeat split.
Qed.




